(** * AudioStream of the MultiSink ndkmedia plugin

    A shallow embedding of
    [libAvKys/Plugins/MultiSink/src/ndkmedia/src/audiostream.cpp]:
    the channel-layout and sample-format tables, the single-slot frame
    accumulator, one tick of the codec buffer exchange ([encodeData]) and the
    packet assembler ([readPacket]).

    Integers are [Z] with the C++ conversions written out, [double] is the
    primitive IEEE 754 binary64 type, byte buffers are [list byte], the two
    [QMap] tables are finite maps, and the calls made to the codec, to the
    wait condition and to the [packetReady] signal are logged in a trace. *)

From Stdlib Require Import ZArith Lia PrimFloat SpecFloat FloatOps.
From Stdlib Require Import Strings.String Init.Byte.
From stdpp Require Import base option list gmap sorting.

Local Open Scope Z_scope.

(** ** Machine integers and doubles *)

Module Num.

Definition INT_MIN : Z := -2147483648.
Definition INT_MAX : Z := 2147483647.

(** Conversion to a 32-bit signed [int] (two's complement wrap). *)
Definition to_int32 (z : Z) : Z := (z + 2 ^ 31) mod 2 ^ 32 - 2 ^ 31.

(** [uint64_t(x)] and, on the 64-bit ABIs, [size_t(x)]. *)
Definition to_uint64 (z : Z) : Z := z mod 2 ^ 64.
Definition to_size_t (z : Z) : Z := to_uint64 z.

Definition in_int (z : Z) : bool := (INT_MIN <=? z) && (z <=? INT_MAX).

Definition double : Set := float.

(** Integer to [double], rounding to nearest even as the hardware does. *)
Definition double_of_int (z : Z) : double :=
  SF2Prim (binary_normalize prec emax z 0 false).

(** The integral part of a finite double (rounding toward zero); [None] for
    NaN and the infinities. *)
Definition trunc (d : double) : option Z :=
  match Prim2SF d with
  | S754_zero _ => Some 0
  | S754_finite s m e =>
      let a := Z.shiftl (Z.pos m) e in Some (if s then - a else a)
  | S754_infinity _ | S754_nan => None
  end.

Section Conversion.

(** C++ leaves [int(d)] undefined when the integral part of [d] does not
    fit an [int]; what the platform then delivers (INT_MIN on x86, a
    saturated value on ARM) is a parameter.  Whatever it is, the result
    is an [int]. *)
Variable undefined_int : double -> Z.

Definition int_of_double (d : double) : Z :=
  match trunc d with
  | Some v => if in_int v then v else to_int32 (undefined_int d)
  | None => to_int32 (undefined_int d)
  end.

(** [qRound(double)] of Qt 5's qglobal.h:
    [d >= 0.0 ? int(d + 0.5)
              : int(d - double(int(d-1)) + 0.5) + int(d-1)]. *)
Definition qRound (d : double) : Z :=
  if (0 <=? d)%float
  then int_of_double (d + 0.5)%float
  else to_int32
         (int_of_double
            (d - double_of_int (int_of_double (d - 1)%float) + 0.5)%float
          + int_of_double (d - 1)%float).

End Conversion.

(** Rounding of an exact rational [n/d] to the nearest integer, halves away
    from zero: the mathematical [round] of the specification. *)
Definition round_frac (n d : Z) : Z :=
  if 0 <=? n then (2 * n + d) / (2 * d) else - ((2 * (- n) + d) / (2 * d)).

End Num.

(** ** QMap

    A [QMap<K, V>] is a finite map.  Building one from an initializer list
    inserts the pairs in order, a later pair replacing an earlier one with
    the same key; [value(k)] returns a default-constructed value when [k] is
    absent; [key(v)] returns the first key, in ascending key order, whose
    value is [v], and a default-constructed key when there is none. *)

Module QMap.

Definition of_list `{Countable K} {V} (l : list (K * V)) : gmap K V :=
  foldl (fun m kv => <[kv.1 := kv.2]> m) ∅ l.

Definition value `{Countable K} {V} (m : gmap K V) (k : K) (dflt : V) : V :=
  default dflt (m !! k).

(** The keys in ascending order, as iteration over a [QMap] visits them. *)
Definition keys {V} (m : gmap Z V) : list Z :=
  merge_sort Z.le (elements (dom m)).

Definition key {V} `{EqDecision V} (m : gmap Z V) (v : V) (dflt : Z) : Z :=
  default dflt
    (head (filter (fun k => m !! k = Some v) (keys m))).

End QMap.

(** ** Channel Layout Mapper *)

Definition ENCODING_PCM_16BIT : Z := 0x2.
Definition ENCODING_PCM_8BIT  : Z := 0x3.
Definition ENCODING_PCM_FLOAT : Z := 0x4.

Definition CHANNEL_MASK_MONO                  : Z := 0x2.
Definition CHANNEL_MASK_FRONT_LEFT            : Z := 0x4.
Definition CHANNEL_MASK_FRONT_RIGHT           : Z := 0x8.
Definition CHANNEL_MASK_FRONT_CENTER          : Z := 0x10.
Definition CHANNEL_MASK_LOW_FREQUENCY         : Z := 0x20.
Definition CHANNEL_MASK_BACK_LEFT             : Z := 0x40.
Definition CHANNEL_MASK_BACK_RIGHT            : Z := 0x80.
Definition CHANNEL_MASK_FRONT_LEFT_OF_CENTER  : Z := 0x100.
Definition CHANNEL_MASK_FRONT_RIGHT_OF_CENTER : Z := 0x200.
Definition CHANNEL_MASK_BACK_CENTER           : Z := 0x400.
Definition CHANNEL_MASK_SIDE_LEFT             : Z := 0x800.
Definition CHANNEL_MASK_SIDE_RIGHT            : Z := 0x1000.

(** Modelled from the spec: the enumeration [AkAudioCaps::Position], declared
    in libAvKys/Lib and not in this file.  The enumerators the file names are
    kept; [Position_other] stands for every other enumerator. *)
Inductive Position : Set :=
| Position_FrontCenter
| Position_FrontLeft
| Position_FrontRight
| Position_LowFrequency1
| Position_BackLeft
| Position_BackRight
| Position_FrontLeftOfCenter
| Position_FrontRightOfCenter
| Position_BackCenter
| Position_SideLeft
| Position_SideRight
| Position_other (tag : nat).

#[global] Instance Position_eq_dec : EqDecision Position.
Proof. solve_decision. Defined.

(** Modelled from the spec: the enumeration [AkAudioCaps::SampleFormat],
    declared in libAvKys/Lib.  The three enumerators the file names are kept;
    [SampleFormat_other] stands for every other enumerator. *)
Inductive SampleFormat : Set :=
| SampleFormat_u8
| SampleFormat_s16
| SampleFormat_flt
| SampleFormat_other (tag : nat).

#[global] Instance SampleFormat_eq_dec : EqDecision SampleFormat.
Proof. solve_decision. Defined.

Definition SampleFormat_code (f : SampleFormat) : nat :=
  match f with
  | SampleFormat_u8 => 0
  | SampleFormat_s16 => 1
  | SampleFormat_flt => 2
  | SampleFormat_other tag => 3 + tag
  end.

Definition SampleFormat_decode (n : nat) : SampleFormat :=
  match n with
  | 0%nat => SampleFormat_u8
  | 1%nat => SampleFormat_s16
  | 2%nat => SampleFormat_flt
  | S (S (S tag)) => SampleFormat_other tag
  end.

#[global] Program Instance SampleFormat_countable : Countable SampleFormat :=
  inj_countable' SampleFormat_code SampleFormat_decode _.
Next Obligation. by intros []. Qed.

Definition channelMaskToPosition : gmap Z Position :=
  QMap.of_list
    [ (CHANNEL_MASK_MONO                 , Position_FrontCenter       );
      (CHANNEL_MASK_FRONT_LEFT           , Position_FrontLeft         );
      (CHANNEL_MASK_FRONT_RIGHT          , Position_FrontRight        );
      (CHANNEL_MASK_FRONT_CENTER         , Position_FrontCenter       );
      (CHANNEL_MASK_LOW_FREQUENCY        , Position_LowFrequency1     );
      (CHANNEL_MASK_BACK_LEFT            , Position_BackLeft          );
      (CHANNEL_MASK_BACK_RIGHT           , Position_BackRight         );
      (CHANNEL_MASK_FRONT_LEFT_OF_CENTER , Position_FrontLeftOfCenter );
      (CHANNEL_MASK_FRONT_RIGHT_OF_CENTER, Position_FrontRightOfCenter);
      (CHANNEL_MASK_BACK_CENTER          , Position_BackCenter        );
      (CHANNEL_MASK_SIDE_LEFT            , Position_SideLeft          );
      (CHANNEL_MASK_SIDE_RIGHT           , Position_SideRight         ) ].

Definition encodingFromSampleFormat_table : gmap SampleFormat Z :=
  QMap.of_list
    [ (SampleFormat_u8 , ENCODING_PCM_8BIT );
      (SampleFormat_s16, ENCODING_PCM_16BIT);
      (SampleFormat_flt, ENCODING_PCM_FLOAT) ].

(** [AudioStream::encodingFromSampleFormat]. *)
Definition encodingFromSampleFormat (format : SampleFormat) : Z :=
  QMap.value encodingFromSampleFormat_table format 0.

(** [AudioStream::channelMaskFromLayout], over the positions of the layout
    ([AkAudioCaps::positions(layout)]). *)
Definition channelMaskFromPositions (positions : list Position) : Z :=
  foldl (fun mask position =>
           Z.lor mask (QMap.key channelMaskToPosition position 0))
        0 positions.

Section Layout.

(** [AkAudioCaps::ChannelLayout] and the static [AkAudioCaps::positions]
    are declared in libAvKys/Lib; they are parameters here. *)
Context {ChannelLayout : Type}.
Variable positions : ChannelLayout -> list Position.

Definition channelMaskFromLayout (layout : ChannelLayout) : Z :=
  channelMaskFromPositions (positions layout).

End Layout.

(** ** Packets *)

Record AkFrac : Set := mkFrac { num : Z; den : Z }.

(** Modelled from the spec: [AkFrac::value()] (libAvKys/Lib), the value of the
    rational as a [qreal]. *)
Definition AkFrac_value (f : AkFrac) : Num.double :=
  (Num.double_of_int (num f) / Num.double_of_int (den f))%float.

(** Modelled from the spec: [AkPacket] and [AkAudioPacket] (libAvKys/Lib).
    One record serves for both; [caps = None] is the default-constructed,
    null packet, for which [operator bool] is false. *)
Record AkPacket : Set := mkPacket {
  caps : option string;
  buffer : list byte;
  pts : Z;
  timeBase : AkFrac;
  index : Z;
  id : Z
}.

Definition AkPacket_null : AkPacket :=
  {| caps := None; buffer := []; pts := 0; timeBase := mkFrac 0 0;
     index := -1; id := -1 |}.

Definition AkPacket_bool (packet : AkPacket) : bool :=
  match caps packet with Some _ => true | None => false end.

(** Modelled from the spec: [AkAudioPacket::operator+=] (libAvKys/Lib).
    Appending to an empty slot replaces it; appending to a non-empty slot
    concatenates the sample data after the samples already there. *)
Definition AkAudioPacket_append (frame other : AkPacket) : AkPacket :=
  if AkPacket_bool frame
  then {| caps := caps frame; buffer := buffer frame ++ buffer other;
          pts := pts frame; timeBase := timeBase frame;
          index := index frame; id := id frame |}
  else other.

(** ** The codec and the rest of the environment *)

Record AMediaCodecBufferInfo : Set := mkInfo {
  offset : Z;               (* int32_t *)
  size : Z;                 (* int32_t *)
  presentationTimeUs : Z;   (* int64_t *)
  flags : Z                 (* uint32_t *)
}.

(** What [AMediaCodec_getOutputBuffer] hands back: a null pointer, with the
    value the caller's [bufferSize] variable holds afterwards, or the byte
    region of the buffer, whose length is the reported capacity. *)
Inductive OutputBuffer : Set :=
| NullBuffer (out_size : Z)
| Buffer (region : list byte).

(** The answers of the codec during one tick. *)
Record AMediaCodec : Set := mkCodec {
  AMediaCodec_dequeueInputBuffer : Z -> Z;
  AMediaCodec_getInputBuffer : Z -> option (list byte);
  AMediaCodec_dequeueOutputBuffer : Z -> Z * AMediaCodecBufferInfo;
  AMediaCodec_getOutputBuffer : Z -> OutputBuffer
}.

(** [QWaitCondition::wait]: it times out, or it is woken after the producer
    thread, which holds the mutex meanwhile, has delivered some packets to
    [convertPacket]. *)
Inductive WaitOutcome : Set :=
| TimedOut
| Woken (delivered : list AkPacket).

Record Env : Type := mkEnv {
  undefined_int : Num.double -> Z;
  THREAD_WAIT_LIMIT : Z;              (* macro of abstractstream.h *)
  codec : AMediaCodec;
  m_convert_iStream : AkPacket -> AkPacket;
  m_frameReady_wait : Z -> WaitOutcome;
  self_index : Z                      (* AbstractStream::index() *)
}.

(** The calls the stream makes, in order.  [Memcpy idx region] is the
    [memcpy] into input buffer [idx], with the contents [region] the buffer
    has afterwards; the other constructors carry the arguments of the call.
    The mutex is not modelled: each function runs atomically, and what the
    producer thread does while the consumer waits is an answer of the
    environment. *)
Inductive Call : Set :=
| DequeueInputBuffer (timeoutUs : Z)
| GetInputBuffer (idx : Z)
| Memcpy (idx : Z) (region : list byte)
| QueueInputBuffer (idx offset size time flags : Z)
| DequeueOutputBuffer (timeoutUs : Z)
| GetOutputBuffer (idx : Z)
| ReleaseOutputBuffer (idx : Z) (render : bool)
| PacketReady (packet : AkPacket)
| Wait (time : Z)
| WakeAll.

Record World : Set := mkWorld {
  m_frame : AkPacket;
  trace : list Call
}.

(** State passing with undefined behaviour: [None] is an execution that
    left the defined behaviour of C++; the trace up to that point is kept. *)
Definition M (A : Type) : Type := World -> option A * World.

#[global] Instance M_ret : MRet M := fun A a w => (Some a, w).
#[global] Instance M_bind : MBind M := fun A B f m w =>
  match m w with
  | (Some a, w') => f a w'
  | (None, w') => (None, w')
  end.

Definition log (c : Call) : M unit :=
  fun w => (Some tt, mkWorld (m_frame w) (trace w ++ [c])).
Definition get_frame : M AkPacket := fun w => (Some (m_frame w), w).
Definition set_frame (frame : AkPacket) : M unit :=
  fun w => (Some tt, mkWorld frame (trace w)).
Definition undefined {A} : M A := fun w => (None, w).

(** Unfolds the monad so that a run on a given world computes. *)
Ltac exec :=
  unfold mbind, M_bind, mret, M_ret, log, get_frame, set_frame, undefined.

Definition len (l : list byte) : Z := Z.of_nat (length l).

(** [memcpy(dst, src, n)] on a destination region: its first [n] bytes are
    replaced by the first [n] bytes of [src]. *)
Definition memcpy (dst src : list byte) (n : Z) : list byte :=
  take (Z.to_nat n) src ++ drop (Z.to_nat n) dst.

(** The source side of [memcpy(_, data + off, n)]: the bytes read.  Nothing is
    read when [n = 0]; otherwise the range must lie inside the region [data]
    points to. *)
Definition memcpy_src (data : option (list byte)) (off n : Z)
  : option (list byte) :=
  if n =? 0 then Some []
  else match data with
       | None => None
       | Some region =>
           if (0 <=? off) && (off + n <=? len region)
           then Some (take (Z.to_nat n) (drop (Z.to_nat off) region))
           else None
       end.

Definition timeOut : Z := 5000.
Definition AMEDIACODEC_BUFFER_FLAG_END_OF_STREAM : Z := 4.

Section Stream.

Variable env : Env.

(** [AudioStream::convertPacket]. *)
Definition convertPacket (packet : AkPacket) : M unit :=
  if negb (AkPacket_bool packet) then mret tt
  else
    let iPacket := m_convert_iStream env packet in
    if negb (AkPacket_bool iPacket) then mret tt
    else
      frame ← get_frame;
      set_frame (AkAudioPacket_append frame iPacket);;
      log WakeAll.

(** The producer thread's calls of [convertPacket] while the consumer
    waits. *)
Fixpoint producer (delivered : list AkPacket) : M unit :=
  match delivered with
  | [] => mret tt
  | packet :: rest => convertPacket packet;; producer rest
  end.

(** [AudioStream::avPacketDequeue]. *)
Definition avPacketDequeue : M AkPacket :=
  frame ← get_frame;
  woken ← (if negb (AkPacket_bool frame)
           then
             log (Wait (THREAD_WAIT_LIMIT env));;
             match m_frameReady_wait env (THREAD_WAIT_LIMIT env) with
             | TimedOut => mret false
             | Woken delivered => producer delivered;; mret true
             end
           else mret true);
  if woken : bool
  then
    frame ← get_frame;
    set_frame AkPacket_null;;
    mret frame
  else mret AkPacket_null.

(** [AudioStreamPrivate::readPacket]. *)
Definition readPacket (bufferIndex : Z) (info : AMediaCodecBufferInfo)
  : M AkPacket :=
  log (GetOutputBuffer bufferIndex);;
  let '(data, bufferSize) :=
    match AMediaCodec_getOutputBuffer (codec env) bufferIndex with
    | NullBuffer out_size => (None, Num.to_size_t out_size)
    | Buffer region => (Some region, len region)
    end in
  let bufferSize := Z.min bufferSize (Num.to_size_t (size info)) in
  if negb (Num.in_int bufferSize) then undefined
  else
    match memcpy_src data (offset info) bufferSize with
    | None => undefined
    | Some oBuffer =>
        mret {| caps := Some "binary/data"%string;
                buffer := oBuffer;
                pts := presentationTimeUs info;
                timeBase := mkFrac 1 1000000;
                index := Num.to_int32 (self_index env);
                id := 0 |}
    end.

(** Lines 214 to 226 of [encodeData]: the output drain. *)
Definition drain : M unit :=
  log (DequeueOutputBuffer timeOut);;
  let '(bufferIndex, info) :=
    AMediaCodec_dequeueOutputBuffer (codec env) timeOut in
  if 0 <=? bufferIndex
  then
    packet ← readPacket (Num.to_size_t bufferIndex) info;
    log (ReleaseOutputBuffer (Num.to_size_t bufferIndex)
                             (negb (size info =? 0)));;
    log (PacketReady packet)
  else mret tt.

Definition presentationTime (packet : AkPacket) : Z :=
  Num.qRound (undefined_int env)
    (1e6 * Num.double_of_int (pts packet)
     * AkFrac_value (timeBase packet))%float.

(** [AudioStream::encodeData].  The first block yields [false] where the
    source returns false early. *)
Definition encodeData (eos : bool) : M bool :=
  submitted ←
    (if eos
     then
       log (DequeueInputBuffer timeOut);;
       let bufferIndex :=
         AMediaCodec_dequeueInputBuffer (codec env) timeOut in
       if bufferIndex <? 0 then mret false
       else
         log (QueueInputBuffer (Num.to_size_t bufferIndex) 0 0 0
                               AMEDIACODEC_BUFFER_FLAG_END_OF_STREAM);;
         mret true
     else
       packet ← avPacketDequeue;
       if negb (AkPacket_bool packet) then mret false
       else
         log (DequeueInputBuffer timeOut);;
         let bufferIndex :=
           AMediaCodec_dequeueInputBuffer (codec env) timeOut in
         if bufferIndex <? 0 then mret false
         else
           log (GetInputBuffer (Num.to_size_t bufferIndex));;
           match AMediaCodec_getInputBuffer (codec env)
                                            (Num.to_size_t bufferIndex) with
           | None => mret false
           | Some region =>
               let buffersize := Z.min (len (buffer packet)) (len region) in
               log (Memcpy (Num.to_size_t bufferIndex)
                           (memcpy region (buffer packet) buffersize));;
               let presentationTimeUs := presentationTime packet in
               log (QueueInputBuffer (Num.to_size_t bufferIndex) 0
                                     buffersize
                                     (Num.to_uint64 presentationTimeUs) 0);;
               mret true
           end);
  if submitted : bool then drain;; mret true else mret false.

End Stream.

(** ** Running the model on the scenarios of the specification *)

Definition raw_caps : option string := Some "audio/x-raw"%string.

Definition frame_of (bytes : list byte) (pts : Z) (tb : AkFrac) : AkPacket :=
  mkPacket raw_caps bytes pts tb 0 0.

(** A codec that answers with input buffer [iidx] and its region, and with
    output buffer [oidx], its metadata and its contents. *)
Definition simple_codec (iidx : Z) (input : option (list byte))
    (oidx : Z) (info : AMediaCodecBufferInfo) (output : OutputBuffer)
  : AMediaCodec :=
  mkCodec (fun _ => iidx) (fun _ => input) (fun _ => (oidx, info))
          (fun _ => output).

(** What x86 delivers for an out-of-range conversion to [int]. *)
Definition x86_int : Num.double -> Z := fun _ => Num.INT_MIN.

(** An environment with an identity converter, no producer activity during a
    wait, and stream index 1. *)
Definition simple_env (u : Num.double -> Z) (c : AMediaCodec) : Env :=
  mkEnv u 500 c (fun packet => packet) (fun _ => TimedOut) 1.

(** A frame whose presentation time is 2148 s: pts 2148 in a time base of
    1/1, two bytes of samples. *)
Definition late_frame : AkPacket := frame_of [x01; x02] 2148 (mkFrac 1 1).

Definition no_output : AMediaCodecBufferInfo := mkInfo 0 0 0 0.

Definition empty_world : World := mkWorld AkPacket_null [].

(** The input side of the exchange: payload copies and submissions. *)
Definition is_input_call (c : Call) : bool :=
  match c with
  | Memcpy _ _ | QueueInputBuffer _ _ _ _ _ => true
  | _ => false
  end.

Definition input_calls (t : list Call) : list Call :=
  List.filter is_input_call t.

(** The calls the output drain may make. *)
Definition is_output_call (c : Call) : bool :=
  match c with
  | DequeueOutputBuffer _ | GetOutputBuffer _ | ReleaseOutputBuffer _ _
  | PacketReady _ => true
  | _ => false
  end.

(** The timestamp the specification asks for: [round(10^6 * pts * num/den)],
    computed exactly. *)
Definition presentationTime_spec (packet : AkPacket) : Z :=
  Num.round_frac (10 ^ 6 * pts packet * num (timeBase packet))
                 (den (timeBase packet)).

(** [encodingForFormat] as the specification words it: the three supported
    formats have their constant, any other value fails. *)
Inductive EncodingError : Set := UnsupportedFormat.

Definition encodingForFormat_spec (format : SampleFormat)
  : EncodingError + Z :=
  match format with
  | SampleFormat_u8 => inr ENCODING_PCM_8BIT
  | SampleFormat_s16 => inr ENCODING_PCM_16BIT
  | SampleFormat_flt => inr ENCODING_PCM_FLOAT
  | SampleFormat_other _ => inl UnsupportedFormat
  end.

(** The single-bit codec value [channelMaskFromLayout] uses for a position. *)
Definition positionMask (position : Position) : Z :=
  QMap.key channelMaskToPosition position 0.

(** A position is mappable when some bit of the table maps to it. *)
Definition mappable (position : Position) : Prop :=
  exists bit, channelMaskToPosition !! bit = Some position.

(** Reading a mask back through the table: the position of every bit of the
    table that is set in the mask, in ascending bit order. *)
Definition positionsFromMask (mask : Z) : list Position :=
  omap (fun bit => if Z.land mask bit =? 0 then None
                   else channelMaskToPosition !! bit)
       (QMap.keys channelMaskToPosition).

(** A three-byte frame, a two-byte input buffer, a codec with no output
    ready: the truncation case. *)
Definition short_frame : AkPacket := frame_of [x01; x02; x03] 0 (mkFrac 1 48000).

Definition small_codec : AMediaCodec :=
  simple_codec 0 (Some [x00; x00]) (-1) no_output (NullBuffer 0).

(** A codec that has no input buffer to offer. *)
Definition busy_codec : AMediaCodec :=
  simple_codec (-1) None (-1) no_output (NullBuffer 0).

(** ** Further definitions: tick accounting, construction, life cycle *)

(** The bits a channel mask can carry: every key of the table except
    [CHANNEL_MASK_FRONT_CENTER]. *)
Definition CHANNEL_MASK_REACHABLE : Z := 0x1FEE.

(** The formats [encodingFromSampleFormat] has an entry for. *)
Definition supported (format : SampleFormat) : Prop :=
  match format with SampleFormat_other _ => False | _ => True end.

(** The frames a run of [convertPacket] calls deposits: the conversions of
    the non-null packets, those that did not come out null. *)
Definition deposited (env : Env) (delivered : list AkPacket) : list AkPacket :=
  List.filter AkPacket_bool
    (m_convert_iStream env <$> List.filter AkPacket_bool delivered).

Definition is_queue (c : Call) : bool :=
  match c with QueueInputBuffer _ _ _ _ _ => true | _ => false end.

(** Calls on the wait condition. *)
Definition is_condition_call (c : Call) : bool :=
  match c with Wait _ | WakeAll => true | _ => false end.

(** A frame in a time base of one second. *)
Definition seconds_frame (bytes : list byte) (pts : Z) : AkPacket :=
  frame_of bytes pts (mkFrac 1 1).

(** An environment in which the producer delivers the given packets while
    the consumer waits. *)
Definition arriving_env (c : AMediaCodec) (delivered : list AkPacket) : Env :=
  mkEnv x86_int 500 c (fun packet => packet) (fun _ => Woken delivered) 1.

(** A codec with a ready four-byte output buffer and the given metadata. *)
Definition output_codec (info : AMediaCodecBufferInfo) : AMediaCodec :=
  simple_codec 0 (Some [x00; x00]) 0 info (Buffer [x0a; x0b; x0c; x0d]).

(** *** The media format written by the constructor *)

Inductive FormatKey : Set :=
| AMEDIAFORMAT_KEY_PCM_ENCODING
| AMEDIAFORMAT_KEY_CHANNEL_MASK
| AMEDIAFORMAT_KEY_CHANNEL_COUNT
| AMEDIAFORMAT_KEY_SAMPLE_RATE
| AMEDIAFORMAT_KEY_other (name : string).

#[global] Instance FormatKey_eq_dec : EqDecision FormatKey.
Proof. solve_decision. Defined.

(** The integer entries of an [AMediaFormat]. *)
Definition AMediaFormat : Type := FormatKey -> option Z.

Definition AMediaFormat_setInt32 (format : AMediaFormat) (key : FormatKey)
    (value : Z) : AMediaFormat :=
  fun k => if decide (k = key) then Some (Num.to_int32 value) else format k.

(** Modelled from the spec: the part of [AkAudioCaps] (libAvKys/Lib) the
    constructor reads. *)
Record AkAudioCaps {ChannelLayout : Type} : Type := mkAudioCaps {
  caps_format : SampleFormat;
  caps_layout : ChannelLayout;
  caps_channels : Z;
  caps_rate : Z
}.
Arguments AkAudioCaps : clear implicits.

(** The [AMediaFormat_setInt32] calls of [AudioStream::AudioStream], on the
    media format the base class made; [android_api] is [__ANDROID_API__]. *)
Definition AudioStream_mediaFormat {ChannelLayout : Type}
    (positions : ChannelLayout -> list Position) (android_api : Z)
    (audioCaps : AkAudioCaps ChannelLayout) (mediaFormat : AMediaFormat)
  : AMediaFormat :=
  let mediaFormat :=
    if 28 <=? android_api
    then AMediaFormat_setInt32 mediaFormat AMEDIAFORMAT_KEY_PCM_ENCODING
           (encodingFromSampleFormat (caps_format audioCaps))
    else mediaFormat in
  let mediaFormat :=
    AMediaFormat_setInt32 mediaFormat AMEDIAFORMAT_KEY_CHANNEL_MASK
      (channelMaskFromLayout positions (caps_layout audioCaps)) in
  let mediaFormat :=
    AMediaFormat_setInt32 mediaFormat AMEDIAFORMAT_KEY_CHANNEL_COUNT
      (caps_channels audioCaps) in
  AMediaFormat_setInt32 mediaFormat AMEDIAFORMAT_KEY_SAMPLE_RATE
    (caps_rate audioCaps).

(** *** The life cycle of the converter *)

(** Modelled from the spec: [AkElement::ElementState] (libAvKys/Lib) and
    [AkElement::setState], which puts the element in the state asked for. *)
Inductive ElementState : Set :=
| ElementStateNull
| ElementStatePaused
| ElementStatePlaying.

Inductive LifeCall : Set :=
| SetState (state : ElementState)
| AbstractStream_init
| AbstractStream_uninit.

Record Converter : Set := mkConverter {
  m_convert_state : ElementState;
  life_trace : list LifeCall
}.

Definition setState (state : ElementState) (c : Converter) : Converter :=
  mkConverter state (life_trace c ++ [SetState state]).

Definition base_call (call : LifeCall) (c : Converter) : Converter :=
  mkConverter (m_convert_state c) (life_trace c ++ [call]).

(** [AudioStream::init]; [base_result] is what [AbstractStream::init]
    returns. *)
Definition init (base_result : bool) (c : Converter) : bool * Converter :=
  let c := setState ElementStatePlaying c in
  let c := base_call AbstractStream_init c in
  let result := base_result in
  let c := if negb result then setState ElementStateNull c else c in
  (result, c).

(** [AudioStream::uninit]. *)
Definition uninit (c : Converter) : Converter :=
  let c := base_call AbstractStream_uninit c in
  setState ElementStateNull c.

(** The calls a user makes on the stream's life cycle; the destructor runs
    [uninit]. *)
Inductive LifeOp : Set :=
| Op_init (base_result : bool)
| Op_uninit
| Op_destroy.

Definition life_step (c : Converter) (op : LifeOp) : Converter :=
  match op with
  | Op_init base_result => (init base_result c).2
  | Op_uninit | Op_destroy => uninit c
  end.

Definition life_run (ops : list LifeOp) (c : Converter) : Converter :=
  foldl life_step c ops.

Example end_to_end :
  let frame := frame_of (replicate 1920 x00) 0 (mkFrac 1 48000) in
  let c := simple_codec 0 (Some (replicate 4096 xff)) 0
                        (mkInfo 0 512 1000 0)
                        (Buffer (replicate 2048 x01)) in
  encodeData (simple_env x86_int c) false (mkWorld frame []) =
  (Some true,
   mkWorld AkPacket_null
     [ DequeueInputBuffer 5000; GetInputBuffer 0;
       Memcpy 0 (replicate 1920 x00 ++ replicate 2176 xff);
       QueueInputBuffer 0 0 1920 0 0;
       DequeueOutputBuffer 5000; GetOutputBuffer 0;
       ReleaseOutputBuffer 0 true;
       PacketReady (mkPacket (Some "binary/data"%string)
                             (replicate 512 x01) 1000
                             (mkFrac 1 1000000) 1 0) ]).
Proof. vm_compute. reflexivity. Qed.

(** ** Machine arithmetic *)

Lemma to_int32_range z : Num.INT_MIN <= Num.to_int32 z <= Num.INT_MAX.
Proof.
  unfold Num.to_int32, Num.INT_MIN, Num.INT_MAX.
  pose proof (Z.mod_pos_bound (z + 2 ^ 31) (2 ^ 32)). lia.
Qed.

Lemma to_int32_id z : Num.in_int z = true -> Num.to_int32 z = z.
Proof.
  unfold Num.in_int, Num.to_int32, Num.INT_MIN, Num.INT_MAX.
  intros [H1 H2]%andb_prop. apply Z.leb_le in H1, H2.
  rewrite Z.mod_small; lia.
Qed.

Lemma to_size_t_id z : 0 <= z < 2 ^ 64 -> Num.to_size_t z = z.
Proof. intros H. unfold Num.to_size_t, Num.to_uint64. by apply Z.mod_small. Qed.

Lemma int_of_double_range u d :
  Num.INT_MIN <= Num.int_of_double u d <= Num.INT_MAX.
Proof.
  unfold Num.int_of_double.
  destruct (Num.trunc d) as [v|]; [|apply to_int32_range].
  destruct (Num.in_int v) eqn:E; [|apply to_int32_range].
  unfold Num.in_int in E. apply andb_prop in E as [H1 H2].
  apply Z.leb_le in H1, H2. lia.
Qed.

Lemma qRound_range u d : Num.INT_MIN <= Num.qRound u d <= Num.INT_MAX.
Proof.
  unfold Num.qRound.
  destruct (0 <=? d)%float; [apply int_of_double_range | apply to_int32_range].
Qed.

(** An [int] cast to [uint64_t] is below 2^31 or within 2^31 of 2^64. *)
Lemma uint64_of_int v :
  Num.INT_MIN <= v <= Num.INT_MAX ->
  0 <= Num.to_uint64 v <= Num.INT_MAX \/
  2 ^ 64 - 2 ^ 31 <= Num.to_uint64 v < 2 ^ 64.
Proof.
  unfold Num.to_uint64, Num.INT_MIN, Num.INT_MAX. intros H.
  destruct (Z.neg_nonneg_cases v) as [Hn|Hp].
  - right. replace v with ((v + 2 ^ 64) + (-1) * 2 ^ 64) by lia.
    rewrite Z.mod_add by lia. rewrite Z.mod_small; lia.
  - left. rewrite Z.mod_small; lia.
Qed.

(** ** Running monadic code *)

Lemma bind_run {A B} (m : M A) (f : A -> M B) w :
  (m ≫= f) w =
  match m w with (Some a, w') => f a w' | (None, w') => (None, w') end.
Proof. reflexivity. Qed.

Lemma ret_run {A} (a : A) w : (mret a : M A) w = (Some a, w).
Proof. reflexivity. Qed.

(** ** Presentation time of a submitted frame *)

Lemma int_of_double_out_of_range u d v :
  Num.trunc d = Some v -> Num.in_int v = false ->
  Num.int_of_double u d = Num.to_int32 (u d).
Proof. intros Ht Hv. unfold Num.int_of_double. by rewrite Ht, Hv. Qed.

Lemma presentationTime_late_frame u c :
  presentationTime (simple_env u c) late_frame =
  Num.to_int32 (u 2148000000.5%float).
Proof.
  unfold presentationTime, Num.qRound.
  set (d := (1e6 * _ * _)%float).
  assert (Hd : d = 2148000000%float) by (vm_compute; reflexivity).
  rewrite Hd.
  replace (0 <=? 2148000000)%float with true by (vm_compute; reflexivity).
  replace (2148000000 + 0.5)%float with 2148000000.5%float
    by (vm_compute; reflexivity).
  apply (int_of_double_out_of_range _ _ 2148000000); vm_compute; reflexivity.
Qed.

(** The time queued is always the image of an [int]: no frame whose
    specified time lies above INT_MAX gets that time. *)
Lemma presentationTime_beyond_int env packet :
  Num.INT_MAX < presentationTime_spec packet < 2 ^ 64 - 2 ^ 31 ->
  Num.to_uint64 (presentationTime env packet) <> presentationTime_spec packet.
Proof.
  intros H.
  destruct (uint64_of_int (presentationTime env packet) (qRound_range _ _))
    as [Hlo|Hhi]; lia.
Qed.

(** C1 (code defect).  The frame with pts 2148 and time base 1/1 has
    [round(10^6 * pts * timebase) = 2148000000] microseconds.  [qRound]
    yields an [int], so whatever the platform does with the out-of-range
    conversion, the time handed to [AMediaCodec_queueInputBuffer] is another
    number. *)
Theorem encodeData_presentationTime_int_overflow :
  presentationTime_spec late_frame = 2148000000 /\
  forall u : Num.double -> Z,
    let c := simple_codec 0 (Some [x00; x00; x00; x00]) (-1) no_output
                          (NullBuffer 0) in
    let time := Num.to_uint64 (Num.to_int32 (u 2148000000.5%float)) in
    encodeData (simple_env u c) false (mkWorld late_frame []) =
    (Some true,
     mkWorld AkPacket_null
       [ DequeueInputBuffer 5000; GetInputBuffer 0;
         Memcpy 0 [x01; x02; x00; x00];
         QueueInputBuffer 0 0 2 time 0;
         DequeueOutputBuffer 5000 ]) /\
    time <> presentationTime_spec late_frame.
Proof.
  split; [reflexivity|]. intros u c time. split.
  - unfold encodeData, avPacketDequeue, drain. exec.
    cbn -[presentationTime Num.to_uint64].
    by rewrite presentationTime_late_frame.
  - change (presentationTime_spec late_frame) with 2148000000.
    destruct (uint64_of_int (Num.to_int32 (u 2148000000.5%float))
                (to_int32_range _)) as [H|H];
      unfold time, Num.INT_MAX in *; lia.
Qed.

(** ** The output drain *)

Lemma drain_no_output env w :
  (AMediaCodec_dequeueOutputBuffer (codec env) timeOut).1 < 0 ->
  drain env w =
  (Some tt, mkWorld (m_frame w) (trace w ++ [DequeueOutputBuffer timeOut])).
Proof.
  intros H. unfold drain. exec.
  destruct (AMediaCodec_dequeueOutputBuffer _ _) as [bufferIndex info].
  simpl in *. by rewrite (proj2 (Z.leb_gt 0 bufferIndex)) by done.
Qed.

Lemma input_calls_app t1 t2 :
  input_calls (t1 ++ t2) = input_calls t1 ++ input_calls t2.
Proof. apply List.filter_app. Qed.

(** The drain leaves the accumulator alone and neither copies a payload nor
    submits an input buffer, whether or not it stays defined. *)
Lemma drain_frame_inputs env w :
  m_frame (drain env w).2 = m_frame w /\
  input_calls (trace (drain env w).2) = input_calls (trace w).
Proof.
  unfold drain, readPacket. exec.
  destruct (AMediaCodec_dequeueOutputBuffer _ _) as [bufferIndex info].
  destruct (0 <=? bufferIndex); cbn [fst snd m_frame trace].
  2: { by rewrite input_calls_app, app_nil_r. }
  destruct (AMediaCodec_getOutputBuffer _ _) as [out_size|region];
    cbn [fst snd m_frame trace];
    (destruct (negb (Num.in_int _)); cbn [fst snd m_frame trace];
     [|destruct (memcpy_src _ _ _); cbn [fst snd m_frame trace]]);
    rewrite ?input_calls_app; cbn; by rewrite ?app_nil_r.
Qed.

Lemma drain_then_true env w :
  m_frame ((drain env ≫= fun _ => mret true) w).2 = m_frame w /\
  input_calls (trace ((drain env ≫= fun _ => mret true) w).2) =
  input_calls (trace w).
Proof.
  destruct (drain_frame_inputs env w) as [Hf Hi].
  rewrite bind_run. destruct (drain env w) as [[[]|] w']; simpl in *; done.
Qed.

(** ** The frame accumulator *)

Lemma convertPacket_deposit env w packet :
  AkPacket_bool packet = true ->
  AkPacket_bool (m_convert_iStream env packet) = true ->
  convertPacket env packet w =
  (Some tt,
   mkWorld (AkAudioPacket_append (m_frame w) (m_convert_iStream env packet))
           (trace w ++ [WakeAll])).
Proof. intros Hp Hi. unfold convertPacket. by rewrite Hp, Hi. Qed.

Lemma avPacketDequeue_ready env w :
  AkPacket_bool (m_frame w) = true ->
  avPacketDequeue env w = (Some (m_frame w), mkWorld AkPacket_null (trace w)).
Proof. intros H. unfold avPacketDequeue. exec. by rewrite H. Qed.

Lemma producer_defined env delivered w :
  exists w', producer env delivered w = (Some tt, w').
Proof.
  revert w. induction delivered as [|packet rest IH]; intros w.
  - by exists w.
  - cbn [producer]. rewrite bind_run. unfold convertPacket.
    destruct (negb (AkPacket_bool packet)); [apply IH|].
    destruct (negb (AkPacket_bool _)); [apply IH|]. exec. apply IH.
Qed.

(** A frame handed out by [avPacketDequeue] has left the slot. *)
Lemma avPacketDequeue_takes env w packet w1 :
  avPacketDequeue env w = (Some packet, w1) ->
  AkPacket_bool packet = true ->
  m_frame w1 = AkPacket_null.
Proof.
  unfold avPacketDequeue. rewrite bind_run. cbn [get_frame].
  destruct (negb (AkPacket_bool (m_frame w))).
  - rewrite !bind_run. cbn [log].
    destruct (m_frameReady_wait _ _) as [|delivered].
    + exec. intros [= <- <-]. done.
    + rewrite bind_run.
      destruct (producer_defined env delivered
                  (mkWorld (m_frame w) (trace w ++ [Wait (THREAD_WAIT_LIMIT env)])))
        as [w' ->].
      exec. by intros [= <- <-].
  - exec. by intros [= <- <-].
Qed.

(** C4.  Starting from an empty slot, [convertPacket] on a packet converted
    to the non-empty frame [A] and then on one converted to the non-empty
    frame [B], followed by one [avPacketDequeue], hands out a frame whose
    samples are those of [A] followed by those of [B], without waiting, and
    leaves the slot empty. *)
Theorem deposit_twice_then_consume env w pA pB :
  AkPacket_bool (m_frame w) = false ->
  AkPacket_bool pA = true -> AkPacket_bool pB = true ->
  AkPacket_bool (m_convert_iStream env pA) = true ->
  AkPacket_bool (m_convert_iStream env pB) = true ->
  exists frame,
    (convertPacket env pA ≫= fun _ =>
     convertPacket env pB ≫= fun _ => avPacketDequeue env) w =
    (Some frame, mkWorld AkPacket_null (trace w ++ [WakeAll; WakeAll])) /\
    AkPacket_bool frame = true /\
    buffer frame =
    buffer (m_convert_iStream env pA) ++ buffer (m_convert_iStream env pB).
Proof.
  intros Hw HpA HpB HA HB.
  set (A := m_convert_iStream env pA) in *.
  set (B := m_convert_iStream env pB) in *.
  exists (AkAudioPacket_append A B).
  assert (Hfirst : AkAudioPacket_append (m_frame w) A = A)
    by (unfold AkAudioPacket_append; by rewrite Hw).
  assert (Hfull : AkPacket_bool (AkAudioPacket_append A B) = true)
    by (unfold AkAudioPacket_append; rewrite HA; exact HA).
  split; [|split].
  - rewrite bind_run, (convertPacket_deposit env w pA HpA HA).
    rewrite bind_run, (convertPacket_deposit env _ pB HpB HB).
    cbn [m_frame trace]. fold A B. rewrite Hfirst.
    rewrite avPacketDequeue_ready by exact Hfull.
    cbn [m_frame trace]. by rewrite <- app_assoc.
  - exact Hfull.
  - unfold AkAudioPacket_append. by rewrite HA.
Qed.

Lemma avPacketDequeue_wait_timeout env w :
  AkPacket_bool (m_frame w) = false ->
  m_frameReady_wait env (THREAD_WAIT_LIMIT env) = TimedOut ->
  avPacketDequeue env w =
  (Some AkPacket_null,
   mkWorld (m_frame w) (trace w ++ [Wait (THREAD_WAIT_LIMIT env)])).
Proof. intros Hw Ht. unfold avPacketDequeue. exec. by rewrite Hw, Ht. Qed.

Lemma encodeData_wait_timeout env w :
  AkPacket_bool (m_frame w) = false ->
  m_frameReady_wait env (THREAD_WAIT_LIMIT env) = TimedOut ->
  encodeData env false w =
  (Some false,
   mkWorld (m_frame w) (trace w ++ [Wait (THREAD_WAIT_LIMIT env)])).
Proof.
  intros Hw Ht. unfold encodeData.
  by rewrite !bind_run, (avPacketDequeue_wait_timeout env w Hw Ht).
Qed.

(** C5.  With the slot empty and the wait timing out, [avPacketDequeue]
    returns the null packet as an ordinary result, having made exactly one
    wait of [THREAD_WAIT_LIMIT]; the slot stays as it was, and
    [encodeData(false)] returns false without any call to the codec. *)
Theorem avPacketDequeue_timeout env w :
  AkPacket_bool (m_frame w) = false ->
  m_frameReady_wait env (THREAD_WAIT_LIMIT env) = TimedOut ->
  let waited :=
    mkWorld (m_frame w) (trace w ++ [Wait (THREAD_WAIT_LIMIT env)]) in
  avPacketDequeue env w = (Some AkPacket_null, waited) /\
  AkPacket_bool AkPacket_null = false /\
  encodeData env false w = (Some false, waited).
Proof.
  intros Hw Ht waited. split; [|split].
  - by apply avPacketDequeue_wait_timeout.
  - reflexivity.
  - by apply encodeData_wait_timeout.
Qed.

(** ** One tick of the buffer exchange *)

(** C6.  On the end-of-stream path, a negative index from
    [AMediaCodec_dequeueInputBuffer] makes the tick return false after that
    one call.  Otherwise the tick queues input buffer [idx] with offset 0,
    size 0, time 0 and the end-of-stream flag, and goes on with the output
    drain; over the whole tick that submission is the only call on the input
    side (no payload is copied) and the accumulator is not touched. *)
Theorem encodeData_eos env w :
  let idx := AMediaCodec_dequeueInputBuffer (codec env) timeOut in
  let submit :=
    QueueInputBuffer (Num.to_size_t idx) 0 0 0
                     AMEDIACODEC_BUFFER_FLAG_END_OF_STREAM in
  (idx < 0 ->
   encodeData env true w =
   (Some false,
    mkWorld (m_frame w) (trace w ++ [DequeueInputBuffer timeOut]))) /\
  (0 <= idx ->
   encodeData env true w =
   (drain env ≫= fun _ => mret true)
     (mkWorld (m_frame w)
              (trace w ++ [DequeueInputBuffer timeOut; submit])) /\
   input_calls (trace (encodeData env true w).2) =
   input_calls (trace w) ++ [submit] /\
   m_frame (encodeData env true w).2 = m_frame w).
Proof.
  intros idx submit.
  assert (Hneg : idx < 0 ->
    encodeData env true w =
    (Some false,
     mkWorld (m_frame w) (trace w ++ [DequeueInputBuffer timeOut]))).
  { intros H. unfold encodeData. exec. fold idx.
    by rewrite (proj2 (Z.ltb_lt idx 0)) by done. }
  split; [exact Hneg|]. intros H.
  assert (Heq : encodeData env true w =
    (drain env ≫= fun _ => mret true)
      (mkWorld (m_frame w)
               (trace w ++ [DequeueInputBuffer timeOut; submit]))).
  { unfold encodeData. exec. fold idx.
    rewrite (proj2 (Z.ltb_ge idx 0)) by done.
    cbn [trace m_frame]. by rewrite <- app_assoc. }
  split; [exact Heq|]. rewrite Heq.
  destruct (drain_then_true env
              (mkWorld (m_frame w)
                       (trace w ++ [DequeueInputBuffer timeOut; submit])))
    as [Hf Hi].
  split; [|exact Hf]. rewrite Hi. cbn [trace].
  by rewrite input_calls_app.
Qed.

Lemma encodeData_submit env w packet w1 region :
  avPacketDequeue env w = (Some packet, w1) ->
  AkPacket_bool packet = true ->
  0 <= AMediaCodec_dequeueInputBuffer (codec env) timeOut ->
  AMediaCodec_getInputBuffer (codec env)
    (Num.to_size_t (AMediaCodec_dequeueInputBuffer (codec env) timeOut)) =
  Some region ->
  let idx := Num.to_size_t (AMediaCodec_dequeueInputBuffer (codec env) timeOut) in
  let n := Z.min (len (buffer packet)) (len region) in
  encodeData env false w =
  (drain env ≫= fun _ => mret true)
    (mkWorld (m_frame w1)
       (trace w1 ++
        [ DequeueInputBuffer timeOut; GetInputBuffer idx;
          Memcpy idx (memcpy region (buffer packet) n);
          QueueInputBuffer idx 0 n
            (Num.to_uint64 (presentationTime env packet)) 0 ])).
Proof.
  intros Hd Hp Hidx Hbuf idx n.
  unfold encodeData. exec. rewrite Hd, Hp. cbn [negb].
  rewrite (proj2 (Z.ltb_ge _ 0)) by done. rewrite Hbuf.
  cbn [trace m_frame]. by rewrite <- !app_assoc.
Qed.

Lemma len_take (l : list byte) n :
  0 <= n <= len l -> len (take (Z.to_nat n) l) = n.
Proof. unfold len. intros H. rewrite length_take. lia. Qed.

(** C2.  When a frame of [L] bytes is taken from the accumulator and the
    codec offers an input buffer of capacity [C], the tick overwrites the
    first [min L C] bytes of the buffer with the first [min L C] bytes of the
    frame, leaves the rest of the buffer as it was, queues the buffer with
    size [min L C], and goes on with the output drain.  That copy and that
    submission are the only calls on the input side during the tick: when
    [C < L] the copy has exactly [C] bytes and the rest of the frame is
    neither submitted nor kept in the accumulator. *)
Theorem encodeData_copies_min env w packet w1 region :
  avPacketDequeue env w = (Some packet, w1) ->
  AkPacket_bool packet = true ->
  0 <= AMediaCodec_dequeueInputBuffer (codec env) timeOut ->
  AMediaCodec_getInputBuffer (codec env)
    (Num.to_size_t (AMediaCodec_dequeueInputBuffer (codec env) timeOut)) =
  Some region ->
  let idx := Num.to_size_t (AMediaCodec_dequeueInputBuffer (codec env) timeOut) in
  let L := len (buffer packet) in
  let C := len region in
  let copied := take (Z.to_nat (Z.min L C)) (buffer packet) in
  let after := copied ++ drop (Z.to_nat (Z.min L C)) region in
  let calls :=
    [ Memcpy idx after;
      QueueInputBuffer idx 0 (Z.min L C)
        (Num.to_uint64 (presentationTime env packet)) 0 ] in
  encodeData env false w =
  (drain env ≫= fun _ => mret true)
    (mkWorld AkPacket_null
       (trace w1 ++
        DequeueInputBuffer timeOut :: GetInputBuffer idx :: calls)) /\
  input_calls (trace (encodeData env false w).2) =
  input_calls (trace w1) ++ calls /\
  m_frame (encodeData env false w).2 = AkPacket_null /\
  len copied = Z.min L C /\
  len after = C /\
  (L <= C -> copied = buffer packet) /\
  (C < L -> len copied = C).
Proof.
  intros Hd Hp Hidx Hbuf idx L C copied after calls.
  pose proof (encodeData_submit env w packet w1 region Hd Hp Hidx Hbuf) as Heq.
  cbv zeta in Heq. rewrite (avPacketDequeue_takes env w packet w1 Hd Hp) in Heq.
  assert (HL : 0 <= L) by (unfold L, len; lia).
  assert (HC : 0 <= C) by (unfold C, len; lia).
  assert (Hcopied : len copied = Z.min L C)
    by (apply len_take; fold L; lia).
  split; [exact Heq|]. rewrite Heq.
  match goal with
  | |- context [(drain env ≫= _) ?w0] =>
      destruct (drain_then_true env w0) as [Hf Hi]
  end.
  rewrite Hi, Hf. cbn [trace m_frame].
  split; [by rewrite input_calls_app|].
  split; [reflexivity|]. split; [exact Hcopied|].
  split; [|split].
  - unfold after, len in *. rewrite length_app, length_drop.
    fold (len region). lia.
  - intros H. unfold copied. rewrite Z.min_l by done.
    apply take_ge. unfold L, len. lia.
  - intros H. rewrite Hcopied. lia.
Qed.

(** C10.  When a frame has been taken from the accumulator and the codec
    then offers no input buffer, or a null pointer for the one it offered,
    the tick returns false, the slot is empty, nothing of the frame has been
    copied or submitted, and a next tick whose wait times out returns false
    without submitting anything either. *)
Theorem encodeData_discards_frame env w packet w1 :
  avPacketDequeue env w = (Some packet, w1) ->
  AkPacket_bool packet = true ->
  let idx := AMediaCodec_dequeueInputBuffer (codec env) timeOut in
  idx < 0 \/
  (0 <= idx /\
   AMediaCodec_getInputBuffer (codec env) (Num.to_size_t idx) = None) ->
  let calls :=
    if idx <? 0 then [DequeueInputBuffer timeOut]
    else [DequeueInputBuffer timeOut; GetInputBuffer (Num.to_size_t idx)] in
  let after := mkWorld AkPacket_null (trace w1 ++ calls) in
  encodeData env false w = (Some false, after) /\
  input_calls calls = [] /\
  forall env',
    m_frameReady_wait env' (THREAD_WAIT_LIMIT env') = TimedOut ->
    encodeData env' false after =
    (Some false,
     mkWorld AkPacket_null
             (trace after ++ [Wait (THREAD_WAIT_LIMIT env')])).
Proof.
  intros Hd Hp idx Hcase calls after.
  pose proof (avPacketDequeue_takes env w packet w1 Hd Hp) as Hslot.
  split; [|split].
  - unfold encodeData. exec. rewrite Hd, Hp. cbn [negb].
    fold idx. unfold after, calls.
    destruct Hcase as [Hneg|[Hpos Hnull]].
    + rewrite (proj2 (Z.ltb_lt idx 0)) by done. by rewrite Hslot.
    + rewrite (proj2 (Z.ltb_ge idx 0)) by done. rewrite Hnull.
      cbn [m_frame trace]. by rewrite Hslot, <- app_assoc.
  - unfold calls. by destruct (idx <? 0).
  - intros env' Ht. by apply encodeData_wait_timeout.
Qed.

(** ** The packet assembler *)

(** C3 (code defect).  [readPacket] does not test the pointer it gets from
    [AMediaCodec_getOutputBuffer] and does not count the offset against the
    capacity.  With a null pointer (and [bufferSize] left at 0) it builds a
    packet with an empty payload, which the end-of-stream tick then releases
    and emits through [packetReady] while returning true: nothing signals
    that the buffer was unavailable.  With a buffer of capacity 10 and
    metadata of offset 5 and size 10 it copies 10 bytes starting at byte 5,
    which leaves the buffer: the execution is undefined.  So it is when the
    pointer is null and [bufferSize] came back as 16. *)
Theorem readPacket_unchecked_pointer_and_offset :
  let info := mkInfo 0 512 1000 0 in
  let null_codec := simple_codec 0 None 0 info (NullBuffer 0) in
  let empty_packet :=
    mkPacket (Some "binary/data"%string) [] 1000 (mkFrac 1 1000000) 1 0 in
  let over := mkInfo 5 10 1000 0 in
  let over_codec :=
    simple_codec 0 None 0 over (Buffer (replicate 10 x01)) in
  readPacket (simple_env x86_int null_codec) 0 info empty_world =
  (Some empty_packet, mkWorld AkPacket_null [GetOutputBuffer 0]) /\
  encodeData (simple_env x86_int null_codec) true empty_world =
  (Some true,
   mkWorld AkPacket_null
     [ DequeueInputBuffer 5000; QueueInputBuffer 0 0 0 0 4;
       DequeueOutputBuffer 5000; GetOutputBuffer 0;
       ReleaseOutputBuffer 0 true; PacketReady empty_packet ]) /\
  readPacket (simple_env x86_int over_codec) 0 over empty_world =
  (None, mkWorld AkPacket_null [GetOutputBuffer 0]) /\
  Z.min (len (replicate 10 x01)) (Num.to_size_t (size over)) = 10 /\
  len (replicate 10 x01) < offset over + 10 /\
  readPacket (simple_env x86_int (simple_codec 0 None 0 info (NullBuffer 16)))
             0 info empty_world =
  (None, mkWorld AkPacket_null [GetOutputBuffer 0]).
Proof. vm_compute. repeat split; reflexivity. Qed.

(** Within the buffer, the assembler copies [min(capacity, size)] bytes from
    [offset] on, whenever that range lies inside the buffer. *)
Lemma readPacket_in_bounds env w idx info region :
  AMediaCodec_getOutputBuffer (codec env) idx = Buffer region ->
  0 <= size info <= Num.INT_MAX -> 0 <= offset info ->
  offset info + Z.min (len region) (size info) <= len region ->
  len region <= Num.INT_MAX ->
  exists packet,
    readPacket env idx info w =
    (Some packet, mkWorld (m_frame w) (trace w ++ [GetOutputBuffer idx])) /\
    buffer packet =
    take (Z.to_nat (Z.min (len region) (size info)))
         (drop (Z.to_nat (offset info)) region) /\
    pts packet = presentationTimeUs info /\
    timeBase packet = mkFrac 1 1000000 /\
    id packet = 0.
Proof.
  intros Hbuf Hsize Hoff Hrange Hcap.
  assert (Hlen : 0 <= len region) by (unfold len; lia).
  assert (Hst : Num.to_size_t (size info) = size info).
  { apply to_size_t_id. unfold Num.INT_MAX in Hsize. lia. }
  unfold readPacket. exec. rewrite Hbuf, Hst.
  set (n := Z.min (len region) (size info)) in *.
  assert (Hin : Num.in_int n = true).
  { unfold Num.in_int, Num.INT_MIN. apply andb_true_intro.
    split; apply Z.leb_le; lia. }
  rewrite Hin. cbn [negb]. unfold memcpy_src.
  destruct (Z.eqb_spec n 0) as [Hz|Hz].
  - eexists. split; [reflexivity|]. cbn [buffer pts timeBase id].
    by rewrite Hz.
  - rewrite (proj2 (Z.leb_le 0 (offset info))) by done.
    rewrite (proj2 (Z.leb_le (offset info + n) (len region))) by done.
    cbn [andb]. eexists. split; [reflexivity|]. done.
Qed.

(** ** The sample-format table *)

Lemma encodingFromSampleFormat_lookup format :
  encodingFromSampleFormat_table !! format =
  match format with
  | SampleFormat_u8 => Some ENCODING_PCM_8BIT
  | SampleFormat_s16 => Some ENCODING_PCM_16BIT
  | SampleFormat_flt => Some ENCODING_PCM_FLOAT
  | SampleFormat_other _ => None
  end.
Proof.
  unfold encodingFromSampleFormat_table, QMap.of_list. cbn [foldl fst snd].
  destruct format.
  - by rewrite !lookup_insert_ne, lookup_insert_eq by done.
  - by rewrite lookup_insert_ne, lookup_insert_eq by done.
  - by rewrite lookup_insert_eq.
  - by rewrite !lookup_insert_ne, lookup_empty by done.
Qed.

(** C7 (as the code has it).  [encodingFromSampleFormat] returns 3 for
    unsigned 8 bit, 2 for signed 16 bit and 4 for floating point, and returns
    0, the default of [QMap::value], for every other format. *)
Theorem encodingFromSampleFormat_values :
  encodingFromSampleFormat SampleFormat_u8 = ENCODING_PCM_8BIT /\
  encodingFromSampleFormat SampleFormat_s16 = ENCODING_PCM_16BIT /\
  encodingFromSampleFormat SampleFormat_flt = ENCODING_PCM_FLOAT /\
  (forall tag, encodingFromSampleFormat (SampleFormat_other tag) = 0) /\
  (forall format,
     encodingFromSampleFormat format =
     match encodingForFormat_spec format with inr c => c | inl _ => 0 end).
Proof.
  unfold encodingFromSampleFormat, QMap.value.
  repeat split; try intros []; by rewrite encodingFromSampleFormat_lookup.
Qed.

(** C7, the claim as stated fails: for a format outside the three, the
    specification asks for the failure [UnsupportedFormat] and the code
    returns the number 0. *)
Lemma encodingFromSampleFormat_never_fails :
  exists format,
    encodingForFormat_spec format = inl UnsupportedFormat /\
    encodingFromSampleFormat format = 0 /\
    inr (encodingFromSampleFormat format) <> encodingForFormat_spec format.
Proof.
  exists (SampleFormat_other 0). split; [reflexivity|].
  assert (H : encodingFromSampleFormat (SampleFormat_other 0) = 0).
  { unfold encodingFromSampleFormat, QMap.value.
    by rewrite encodingFromSampleFormat_lookup. }
  split; [exact H|]. by rewrite H.
Qed.

(** ** The channel-mask table *)

Lemma channelMaskToPosition_entries bit position :
  channelMaskToPosition !! bit = Some position <->
  (bit, position) ∈
    [ (0x2, Position_FrontCenter); (0x4, Position_FrontLeft);
      (0x8, Position_FrontRight); (0x10, Position_FrontCenter);
      (0x20, Position_LowFrequency1); (0x40, Position_BackLeft);
      (0x80, Position_BackRight); (0x100, Position_FrontLeftOfCenter);
      (0x200, Position_FrontRightOfCenter); (0x400, Position_BackCenter);
      (0x800, Position_SideLeft); (0x1000, Position_SideRight) ].
Proof.
  rewrite <- elem_of_map_to_list.
  let l := eval vm_compute in (map_to_list channelMaskToPosition) in
  replace (map_to_list channelMaskToPosition) with l
    by (vm_compute; reflexivity).
  rewrite !elem_of_cons, !elem_of_nil. tauto.
Qed.

Lemma positionMask_cases position :
  positionMask position =
  match position with
  | Position_FrontCenter => CHANNEL_MASK_MONO
  | Position_FrontLeft => CHANNEL_MASK_FRONT_LEFT
  | Position_FrontRight => CHANNEL_MASK_FRONT_RIGHT
  | Position_LowFrequency1 => CHANNEL_MASK_LOW_FREQUENCY
  | Position_BackLeft => CHANNEL_MASK_BACK_LEFT
  | Position_BackRight => CHANNEL_MASK_BACK_RIGHT
  | Position_FrontLeftOfCenter => CHANNEL_MASK_FRONT_LEFT_OF_CENTER
  | Position_FrontRightOfCenter => CHANNEL_MASK_FRONT_RIGHT_OF_CENTER
  | Position_BackCenter => CHANNEL_MASK_BACK_CENTER
  | Position_SideLeft => CHANNEL_MASK_SIDE_LEFT
  | Position_SideRight => CHANNEL_MASK_SIDE_RIGHT
  | Position_other _ => 0
  end.
Proof. destruct position; vm_compute; reflexivity. Qed.

Lemma mappable_cases position :
  mappable position <->
  match position with Position_other _ => False | _ => True end.
Proof.
  unfold mappable. split.
  - intros [bit H]. apply channelMaskToPosition_entries in H.
    rewrite !elem_of_cons, elem_of_nil in H.
    destruct position; try done. intuition congruence.
  - destruct position; try done; intros _;
      [exists 0x2|exists 0x4|exists 0x8|exists 0x20|exists 0x40|exists 0x80
      |exists 0x100|exists 0x200|exists 0x400|exists 0x800|exists 0x1000];
      apply channelMaskToPosition_entries;
      rewrite !elem_of_cons; tauto.
Qed.

(** The value used for a position is 0 when no bit maps to it, and otherwise
    a single bit that the table maps back to the position. *)
Lemma positionMask_single_bit position :
  (~ mappable position -> positionMask position = 0) /\
  (mappable position ->
   exists k, 0 <= k /\ positionMask position = 2 ^ k /\
             channelMaskToPosition !! (2 ^ k) = Some position).
Proof.
  rewrite mappable_cases, positionMask_cases. split.
  - destruct position; tauto.
  - destruct position; try done; intros _;
      [exists 1|exists 2|exists 3|exists 5|exists 6|exists 7
      |exists 8|exists 9|exists 10|exists 11|exists 12];
      (split; [lia|split; [reflexivity|]]);
      apply channelMaskToPosition_entries; rewrite !elem_of_cons; tauto.
Qed.

Lemma positionMask_zero_or_bit position :
  positionMask position = 0 \/ exists k, 0 <= k /\ positionMask position = 2 ^ k.
Proof.
  rewrite positionMask_cases.
  destruct position;
    [right; exists 1|right; exists 2|right; exists 3|right; exists 5
    |right; exists 6|right; exists 7|right; exists 8|right; exists 9
    |right; exists 10|right; exists 11|right; exists 12|left];
    try (split; [lia|reflexivity]); reflexivity.
Qed.

Lemma testbit_single_bit k i :
  0 <= k -> 0 <= i -> Z.testbit (2 ^ k) i = true <-> 2 ^ k = 2 ^ i.
Proof.
  intros Hk Hi. rewrite Z.pow2_bits_eqb by done. split.
  - by intros ->%Z.eqb_eq.
  - intros H. apply Z.eqb_eq. by apply (Z.pow_inj_r 2).
Qed.

Lemma positionMask_testbit position i :
  0 <= i ->
  Z.testbit (positionMask position) i = true <-> positionMask position = 2 ^ i.
Proof.
  intros Hi.
  destruct (positionMask_zero_or_bit position) as [->|(k & Hk & ->)].
  - rewrite Z.bits_0. pose proof (Z.pow_pos_nonneg 2 i). split; [done|lia].
  - by apply testbit_single_bit.
Qed.

(** The loop of [channelMaskFromLayout] as a right fold. *)
Lemma channelMaskFromPositions_foldr positions :
  channelMaskFromPositions positions =
  foldr Z.lor 0 (positionMask <$> positions).
Proof.
  unfold channelMaskFromPositions. fold positionMask.
  assert (H : forall acc,
    foldl (fun mask position => Z.lor mask (QMap.key channelMaskToPosition position 0))
          acc positions =
    Z.lor acc (foldr Z.lor 0 (positionMask <$> positions))).
  { induction positions as [|p ps IH]; intros acc; cbn [foldl foldr fmap list_fmap].
    - by rewrite Z.lor_0_r.
    - rewrite IH. fold (positionMask p). by rewrite Z.lor_assoc. }
  by rewrite H, Z.lor_0_l.
Qed.

Lemma channelMaskFromPositions_testbit positions i :
  0 <= i ->
  Z.testbit (channelMaskFromPositions positions) i = true <->
  exists position, position ∈ positions /\ positionMask position = 2 ^ i.
Proof.
  intros Hi. rewrite channelMaskFromPositions_foldr.
  induction positions as [|p ps IH]; cbn [foldr fmap list_fmap].
  - rewrite Z.bits_0. split; [done|]. intros (q & Hq & _).
    by apply elem_of_nil in Hq.
  - rewrite Z.lor_spec, orb_true_iff, IH, positionMask_testbit by done.
    split.
    + intros [H|(q & Hq & H)].
      * exists p. split; [left|done].
      * exists q. split; [by right|done].
    + intros (q & Hq & H). apply elem_of_cons in Hq as [->|Hq].
      * by left.
      * right. by exists q.
Qed.

(** C8.  The mask of a layout is the bitwise OR, over the positions of the
    layout, of the value the table gives each position: 0 for a position no
    bit maps to, a single bit otherwise.  So bit [i] of the mask is set
    exactly when some position of the layout has that bit as its value, and
    the mask depends on nothing but the positions of the layout. *)
Theorem channelMaskFromLayout_or {ChannelLayout : Type}
    (positions : ChannelLayout -> list Position) (layout : ChannelLayout) :
  channelMaskFromLayout positions layout =
  foldr Z.lor 0 (positionMask <$> positions layout) /\
  (forall position,
     (~ mappable position -> positionMask position = 0) /\
     (mappable position ->
      exists k, 0 <= k /\ positionMask position = 2 ^ k /\
                channelMaskToPosition !! (2 ^ k) = Some position)) /\
  (forall i, 0 <= i ->
     Z.testbit (channelMaskFromLayout positions layout) i = true <->
     exists position,
       position ∈ positions layout /\ positionMask position = 2 ^ i) /\
  (forall layout',
     positions layout' = positions layout ->
     channelMaskFromLayout positions layout' =
     channelMaskFromLayout positions layout).
Proof.
  unfold channelMaskFromLayout. split; [|split; [|split]].
  - apply channelMaskFromPositions_foldr.
  - apply positionMask_single_bit.
  - intros i Hi. by apply channelMaskFromPositions_testbit.
  - by intros layout' ->.
Qed.

Lemma QMap_keys_elem {V} (m : gmap Z V) (k : Z) :
  k ∈ QMap.keys m <-> is_Some (m !! k).
Proof.
  unfold QMap.keys. rewrite merge_sort_Permutation, elem_of_elements.
  apply elem_of_dom.
Qed.

Lemma land_single_bit m k :
  0 <= k -> Z.land m (2 ^ k) = if Z.testbit m k then 2 ^ k else 0.
Proof.
  intros Hk. apply Z.bits_inj'. intros n Hn.
  rewrite Z.land_spec, Z.pow2_bits_eqb by done.
  destruct (Z.eqb_spec k n) as [->|Hne].
  - destruct (Z.testbit m n); cbn [andb].
    + by rewrite Z.pow2_bits_eqb, Z.eqb_refl.
    + by rewrite Z.bits_0.
  - rewrite andb_false_r. destruct (Z.testbit m k).
    + rewrite Z.pow2_bits_eqb by done. symmetry. by apply Z.eqb_neq.
    + by rewrite Z.bits_0.
Qed.

Lemma channelMaskToPosition_key_single_bit bit position :
  channelMaskToPosition !! bit = Some position ->
  exists k, 0 <= k /\ bit = 2 ^ k.
Proof.
  intros H. apply channelMaskToPosition_entries in H.
  rewrite !elem_of_cons, elem_of_nil in H.
  destruct H as [H|[H|[H|[H|[H|[H|[H|[H|[H|[H|[H|[H|[]]]]]]]]]]]]];
    injection H as -> _;
    [exists 1|exists 2|exists 3|exists 4|exists 5|exists 6|exists 7
    |exists 8|exists 9|exists 10|exists 11|exists 12];
    (split; [lia|reflexivity]).
Qed.

Lemma channelMaskToPosition_shared_position bit1 bit2 position :
  channelMaskToPosition !! bit1 = Some position ->
  channelMaskToPosition !! bit2 = Some position ->
  bit1 <> bit2 ->
  position = Position_FrontCenter /\
  (bit1 = CHANNEL_MASK_MONO /\ bit2 = CHANNEL_MASK_FRONT_CENTER \/
   bit1 = CHANNEL_MASK_FRONT_CENTER /\ bit2 = CHANNEL_MASK_MONO).
Proof.
  intros H1 H2 Hne.
  apply channelMaskToPosition_entries in H1, H2.
  rewrite !elem_of_cons, elem_of_nil in H1, H2.
  unfold CHANNEL_MASK_MONO, CHANNEL_MASK_FRONT_CENTER.
  destruct H1 as [H1|[H1|[H1|[H1|[H1|[H1|[H1|[H1|[H1|[H1|[H1|[H1|[]]]]]]]]]]]]];
    injection H1 as -> ->;
    destruct H2 as [H2|[H2|[H2|[H2|[H2|[H2|[H2|[H2|[H2|[H2|[H2|[H2|[]]]]]]]]]]]]];
    try discriminate H2; injection H2 as ->; try done; auto.
Qed.

Lemma positionsFromMask_elem positions position :
  position ∈ positionsFromMask (channelMaskFromPositions positions) <->
  position ∈ positions /\ mappable position.
Proof.
  unfold positionsFromMask. rewrite list_elem_of_omap. split.
  - intros (bit & _ & H).
    destruct (Z.eqb_spec (Z.land (channelMaskFromPositions positions) bit) 0)
      as [|Hland]; [done|].
    destruct (channelMaskToPosition_key_single_bit _ _ H) as (k & Hk & ->).
    rewrite land_single_bit in Hland by done.
    destruct (Z.testbit _ k) eqn:Hbit; [|done].
    apply channelMaskFromPositions_testbit in Hbit as (q & Hq & Hmask);
      [|done].
    assert (Hmq : mappable q).
    { apply mappable_cases. rewrite positionMask_cases in Hmask.
      pose proof (Z.pow_pos_nonneg 2 k).
      destruct q; first [exact I | lia]. }
    destruct (positionMask_single_bit q) as [_ Hb].
    destruct (Hb Hmq) as (k' & Hk' & Hqk & Hlook).
    rewrite <- Hqk, Hmask in Hlook.
    assert (position = q) as -> by congruence.
    split; [done|]. by exists (2 ^ k).
  - intros [Hin Hm].
    destruct (positionMask_single_bit position) as [_ Hb].
    destruct (Hb Hm) as (k & Hk & Hpk & Hlook).
    exists (2 ^ k). split; [by apply QMap_keys_elem|].
    rewrite land_single_bit by done.
    assert (Hbit : Z.testbit (channelMaskFromPositions positions) k = true).
    { apply channelMaskFromPositions_testbit; [done|]. by exists position. }
    rewrite Hbit.
    destruct (Z.eqb_spec (2 ^ k) 0) as [Hz|_]; [|done].
    pose proof (Z.pow_pos_nonneg 2 k). lia.
Qed.

(** C9 (as the code has it).  Every key of the table is a single bit and maps
    to one position.  Two different bits map to the same position only for
    the pair 0x2 (mono) and 0x10 (front centre), which both map to the front
    centre position.  Reading a mask back through the table returns exactly
    the mappable positions of the layout it was computed from. *)
Theorem channelMaskToPosition_per_bit :
  (forall bit position,
     channelMaskToPosition !! bit = Some position ->
     (exists k, 0 <= k /\ bit = 2 ^ k) /\
     forall position',
       channelMaskToPosition !! bit = Some position' -> position' = position) /\
  (forall bit1 bit2 position,
     channelMaskToPosition !! bit1 = Some position ->
     channelMaskToPosition !! bit2 = Some position ->
     bit1 <> bit2 ->
     position = Position_FrontCenter /\
     (bit1 = CHANNEL_MASK_MONO /\ bit2 = CHANNEL_MASK_FRONT_CENTER \/
      bit1 = CHANNEL_MASK_FRONT_CENTER /\ bit2 = CHANNEL_MASK_MONO)) /\
  (forall positions position,
     position ∈ positionsFromMask (channelMaskFromPositions positions) <->
     position ∈ positions /\ mappable position).
Proof.
  split; [|split].
  - intros bit position H. split.
    + by apply (channelMaskToPosition_key_single_bit bit position).
    + intros position' H'. congruence.
  - apply channelMaskToPosition_shared_position.
  - apply positionsFromMask_elem.
Qed.

(** C9, the claim as stated fails: the bits 0x2 and 0x10 are different and
    map to the same position, and the mask of a front-centre layout reads
    back as bit 0x2, never 0x10. *)
Lemma channelMaskToPosition_not_injective :
  exists bit1 bit2 position,
    bit1 <> bit2 /\
    channelMaskToPosition !! bit1 = Some position /\
    channelMaskToPosition !! bit2 = Some position /\
    channelMaskFromPositions [position] = bit1.
Proof.
  exists CHANNEL_MASK_MONO, CHANNEL_MASK_FRONT_CENTER, Position_FrontCenter.
  split; [done|]. vm_compute. done.
Qed.

(** ** The theorems at concrete inputs *)

Example eos_without_output :
  encodeData (simple_env x86_int small_codec) true empty_world =
  (Some true,
   mkWorld AkPacket_null
     [ DequeueInputBuffer 5000; QueueInputBuffer 0 0 0 0 4;
       DequeueOutputBuffer 5000 ]).
Proof. vm_compute. reflexivity. Qed.

Lemma encodeData_copies_min_witness :
  let env := simple_env x86_int small_codec in
  let w := mkWorld short_frame [] in
  (avPacketDequeue env w = (Some short_frame, empty_world) /\
   AkPacket_bool short_frame = true /\
   0 <= AMediaCodec_dequeueInputBuffer (codec env) timeOut /\
   AMediaCodec_getInputBuffer (codec env) 0 = Some [x00; x00]) /\
  encodeData env false w =
  (Some true,
   mkWorld AkPacket_null
     [ DequeueInputBuffer 5000; GetInputBuffer 0; Memcpy 0 [x01; x02];
       QueueInputBuffer 0 0 2 0 0; DequeueOutputBuffer 5000 ]) /\
  input_calls (trace (encodeData env false w).2) =
  [ Memcpy 0 [x01; x02]; QueueInputBuffer 0 0 2 0 0 ].
Proof.
  intros env w.
  assert (Hidx : 0 <= AMediaCodec_dequeueInputBuffer (codec env) timeOut)
    by (vm_compute; discriminate).
  destruct (encodeData_copies_min env w short_frame empty_world [x00; x00]
              eq_refl eq_refl Hidx eq_refl) as (Hrun & Hcalls & _).
  split; [repeat split; exact Hidx|]. split; [|exact Hcalls].
  rewrite Hrun. vm_compute. reflexivity.
Defined.

Lemma deposit_twice_then_consume_witness :
  let env := simple_env x86_int busy_codec in
  let pA := frame_of [x01; x02] 0 (mkFrac 1 48000) in
  let pB := frame_of [x03] 1 (mkFrac 1 48000) in
  exists frame,
    (convertPacket env pA ≫= fun _ =>
     convertPacket env pB ≫= fun _ => avPacketDequeue env) empty_world =
    (Some frame, mkWorld AkPacket_null [WakeAll; WakeAll]) /\
    AkPacket_bool frame = true /\
    buffer frame = [x01; x02; x03].
Proof.
  intros env pA pB.
  exact (deposit_twice_then_consume env empty_world pA pB
           eq_refl eq_refl eq_refl eq_refl eq_refl).
Defined.

Lemma avPacketDequeue_timeout_witness :
  let env := simple_env x86_int small_codec in
  avPacketDequeue env empty_world =
  (Some AkPacket_null, mkWorld AkPacket_null [Wait 500]) /\
  AkPacket_bool AkPacket_null = false /\
  encodeData env false empty_world =
  (Some false, mkWorld AkPacket_null [Wait 500]).
Proof.
  intros env. exact (avPacketDequeue_timeout env empty_world eq_refl eq_refl).
Defined.

Lemma encodeData_eos_witness :
  encodeData (simple_env x86_int busy_codec) true empty_world =
  (Some false, mkWorld AkPacket_null [DequeueInputBuffer 5000]) /\
  input_calls
    (trace (encodeData (simple_env x86_int small_codec) true empty_world).2) =
  [QueueInputBuffer 0 0 0 0 4].
Proof.
  split.
  - apply (proj1 (encodeData_eos (simple_env x86_int busy_codec) empty_world)).
    vm_compute. reflexivity.
  - apply (proj2 (encodeData_eos (simple_env x86_int small_codec) empty_world)).
    vm_compute. discriminate.
Defined.

Lemma encodeData_discards_frame_witness :
  let env := simple_env x86_int busy_codec in
  let w := mkWorld short_frame [] in
  (avPacketDequeue env w = (Some short_frame, empty_world) /\
   AMediaCodec_dequeueInputBuffer (codec env) timeOut < 0) /\
  encodeData env false w =
  (Some false, mkWorld AkPacket_null [DequeueInputBuffer 5000]) /\
  encodeData env false (mkWorld AkPacket_null [DequeueInputBuffer 5000]) =
  (Some false, mkWorld AkPacket_null [DequeueInputBuffer 5000; Wait 500]).
Proof.
  intros env w.
  assert (Hidx : AMediaCodec_dequeueInputBuffer (codec env) timeOut < 0)
    by (vm_compute; reflexivity).
  destruct (encodeData_discards_frame env w short_frame empty_world
              eq_refl eq_refl (or_introl Hidx)) as (Hrun & _ & Hnext).
  split; [split; [reflexivity|exact Hidx]|]. split; [exact Hrun|].
  exact (Hnext env eq_refl).
Defined.

(** ** More on the channel mask *)

Lemma foldr_lor_app (l1 l2 : list Z) :
  foldr Z.lor 0 (l1 ++ l2) = Z.lor (foldr Z.lor 0 l1) (foldr Z.lor 0 l2).
Proof.
  induction l1 as [|a l1 IH]; cbn [foldr app].
  - by rewrite Z.lor_0_l.
  - by rewrite IH, Z.lor_assoc.
Qed.

(** X1.  The mask of an empty layout is 0 and the mask of two lists of
    positions put together is the bitwise OR of their masks. *)
Theorem channelMaskFromPositions_app positions1 positions2 :
  channelMaskFromPositions [] = 0 /\
  channelMaskFromPositions (positions1 ++ positions2) =
  Z.lor (channelMaskFromPositions positions1)
        (channelMaskFromPositions positions2).
Proof.
  split; [reflexivity|].
  by rewrite !channelMaskFromPositions_foldr, fmap_app, foldr_lor_app.
Qed.

Lemma channelMaskFromPositions_nonneg positions :
  0 <= channelMaskFromPositions positions.
Proof.
  rewrite channelMaskFromPositions_foldr.
  induction positions as [|p ps IH]; cbn [foldr fmap list_fmap]; [done|].
  apply Z.lor_nonneg. split; [|exact IH].
  rewrite positionMask_cases. by destruct p.
Qed.

(** X2.  The mask depends on the set of positions only: two layouts with the
    same positions, in any order and with any repetitions, have the same
    mask. *)
Theorem channelMaskFromPositions_same_set positions1 positions2 :
  (forall position, position ∈ positions1 <-> position ∈ positions2) ->
  channelMaskFromPositions positions1 = channelMaskFromPositions positions2.
Proof.
  intros Hset. apply Z.bits_inj'. intros i Hi.
  apply eq_true_iff_eq.
  rewrite !channelMaskFromPositions_testbit by done.
  split; intros (p & Hp & Hm); exists p; (split; [by apply Hset|done]).
Qed.

Lemma channelMaskFromPositions_same_set_witness :
  channelMaskFromPositions
    [Position_FrontLeft; Position_FrontRight; Position_FrontLeft] =
  channelMaskFromPositions [Position_FrontRight; Position_FrontLeft].
Proof.
  apply channelMaskFromPositions_same_set.
  intros position. rewrite !elem_of_cons, !elem_of_nil. tauto.
Defined.

Lemma positionMask_reachable position :
  Z.land (positionMask position) CHANNEL_MASK_REACHABLE = positionMask position.
Proof. rewrite positionMask_cases. by destruct position. Qed.

Lemma channelMaskFromPositions_reachable positions :
  Z.land (channelMaskFromPositions positions) CHANNEL_MASK_REACHABLE =
  channelMaskFromPositions positions.
Proof.
  rewrite channelMaskFromPositions_foldr.
  induction positions as [|p ps IH]; cbn [foldr fmap list_fmap]; [done|].
  by rewrite Z.land_lor_distr_l, IH, positionMask_reachable.
Qed.

Lemma land_submask_le x c : 0 <= c -> Z.land x c = x -> 0 <= x <= c.
Proof.
  intros Hc Hx. split.
  - rewrite <- Hx. apply Z.land_nonneg. by right.
  - pose proof (Z.lor_ldiff_and c x) as Hsplit.
    pose proof (Z.add_lor_land (Z.ldiff c x) (Z.land c x)) as Hadd.
    assert (Hdisj : Z.land (Z.ldiff c x) (Z.land c x) = 0).
    { apply Z.bits_inj'. intros n Hn.
      rewrite !Z.land_spec, Z.ldiff_spec, Z.bits_0.
      destruct (Z.testbit c n), (Z.testbit x n); done. }
    rewrite Hsplit, Hdisj, (Z.land_comm c x), Hx in Hadd.
    assert (0 <= Z.ldiff c x) by (apply Z.ldiff_nonneg; by left). lia.
Qed.

(** X3.  A mask only has bits of the table other than
    [CHANNEL_MASK_FRONT_CENTER]: it lies between 0 and 0x1FEE, so the
    [int32_t] accumulator never overflows, and bit 0x10 is never set, not
    even for a layout with the front centre position, whose bit is 0x2. *)
Theorem channelMaskFromPositions_range positions :
  0 <= channelMaskFromPositions positions <= CHANNEL_MASK_REACHABLE /\
  Num.to_int32 (channelMaskFromPositions positions) =
  channelMaskFromPositions positions /\
  Z.land (channelMaskFromPositions positions) CHANNEL_MASK_FRONT_CENTER = 0 /\
  (Position_FrontCenter ∈ positions ->
   Z.land (channelMaskFromPositions positions) CHANNEL_MASK_MONO =
   CHANNEL_MASK_MONO).
Proof.
  pose proof (channelMaskFromPositions_reachable positions) as Hsub.
  assert (Hrange : 0 <= channelMaskFromPositions positions
                   <= CHANNEL_MASK_REACHABLE)
    by (by apply land_submask_le).
  split; [exact Hrange|]. split; [|split].
  - apply to_int32_id. unfold Num.in_int, Num.INT_MIN, Num.INT_MAX.
    unfold CHANNEL_MASK_REACHABLE in Hrange.
    apply andb_true_intro. split; apply Z.leb_le; lia.
  - rewrite <- Hsub, <- Z.land_assoc. apply Z.land_0_r.
  - intros Hin. change CHANNEL_MASK_MONO with (2 ^ 1).
    rewrite land_single_bit by done.
    assert (Hbit : Z.testbit (channelMaskFromPositions positions) 1 = true).
    { apply channelMaskFromPositions_testbit; [done|].
      exists Position_FrontCenter. split; [done|].
      by rewrite positionMask_cases. }
    by rewrite Hbit.
Qed.

Lemma positionMask_zero position :
  positionMask position = 0 <-> ~ mappable position.
Proof.
  rewrite mappable_cases, positionMask_cases.
  destruct position; unfold CHANNEL_MASK_MONO, CHANNEL_MASK_FRONT_LEFT,
    CHANNEL_MASK_FRONT_RIGHT, CHANNEL_MASK_LOW_FREQUENCY,
    CHANNEL_MASK_BACK_LEFT, CHANNEL_MASK_BACK_RIGHT,
    CHANNEL_MASK_FRONT_LEFT_OF_CENTER, CHANNEL_MASK_FRONT_RIGHT_OF_CENTER,
    CHANNEL_MASK_BACK_CENTER, CHANNEL_MASK_SIDE_LEFT,
    CHANNEL_MASK_SIDE_RIGHT; split; try tauto; try lia.
Qed.

(** X4.  The mask is 0 exactly when no position of the layout has a bit in
    the table; such a layout is indistinguishable from the empty one. *)
Theorem channelMaskFromPositions_zero positions :
  channelMaskFromPositions positions = 0 <->
  forall position, position ∈ positions -> ~ mappable position.
Proof.
  rewrite channelMaskFromPositions_foldr.
  induction positions as [|p ps IH]; cbn [foldr fmap list_fmap].
  - split; [|done]. intros _ q Hq. by apply elem_of_nil in Hq.
  - rewrite Z.lor_eq_0_iff, IH, positionMask_zero. split.
    + intros [Hp Hps] q [->|Hq]%elem_of_cons; [done|by apply Hps].
    + intros H. split; [apply H; left|intros q Hq; apply H; by right].
Qed.

(** X5.  Looking a bit up in the table and asking [key] for the position
    found gives the bit back, except for [CHANNEL_MASK_FRONT_CENTER], for
    which [key] answers [CHANNEL_MASK_MONO]; in the other direction the bit
    [key] finds for a position always maps back to that position. *)
Theorem channelMaskToPosition_round_trip :
  (forall bit position,
     channelMaskToPosition !! bit = Some position ->
     positionMask position =
     if bit =? CHANNEL_MASK_FRONT_CENTER then CHANNEL_MASK_MONO else bit) /\
  (forall position,
     positionMask position <> 0 ->
     channelMaskToPosition !! positionMask position = Some position).
Proof.
  split.
  - intros bit position H. apply channelMaskToPosition_entries in H.
    rewrite !elem_of_cons, elem_of_nil in H.
    rewrite positionMask_cases.
    destruct H as [H|[H|[H|[H|[H|[H|[H|[H|[H|[H|[H|[H|[]]]]]]]]]]]]];
      injection H as -> ->; reflexivity.
  - intros position Hnz.
    assert (Hm : mappable position).
    { apply mappable_cases. rewrite positionMask_cases in Hnz.
      by destruct position. }
    destruct (positionMask_single_bit position) as [_ Hb].
    destruct (Hb Hm) as (k & _ & -> & Hlook). exact Hlook.
Qed.

(** ** More on the sample-format table *)

(** X6.  [encodingFromSampleFormat] returns 0 exactly for the formats it has
    no entry for, so 0 never stands for a supported format, and two formats
    with the same non-zero encoding are the same format. *)
Theorem encodingFromSampleFormat_zero_iff_unsupported :
  (forall format,
     encodingFromSampleFormat format = 0 <-> ~ supported format) /\
  (forall format1 format2,
     encodingFromSampleFormat format1 = encodingFromSampleFormat format2 ->
     encodingFromSampleFormat format1 <> 0 ->
     format1 = format2).
Proof.
  unfold encodingFromSampleFormat, QMap.value. split.
  - intros format. rewrite encodingFromSampleFormat_lookup.
    destruct format; cbn; split; try tauto; try done.
  - intros format1 format2. rewrite !encodingFromSampleFormat_lookup.
    destruct format1, format2; cbn; done.
Qed.

(** ** More on the frame accumulator *)

Lemma deposited_cons env packet rest :
  deposited env (packet :: rest) =
  if AkPacket_bool packet && AkPacket_bool (m_convert_iStream env packet)
  then m_convert_iStream env packet :: deposited env rest
  else deposited env rest.
Proof.
  unfold deposited. cbn [List.filter].
  destruct (AkPacket_bool packet); cbn [andb fmap list_fmap List.filter];
    [|done].
  by destruct (AkPacket_bool (m_convert_iStream env packet)).
Qed.

Lemma producer_run env delivered w :
  producer env delivered w =
  (Some tt,
   mkWorld (foldl AkAudioPacket_append (m_frame w) (deposited env delivered))
           (trace w ++ replicate (length (deposited env delivered)) WakeAll)).
Proof.
  revert w. induction delivered as [|packet rest IH]; intros w.
  - cbn. rewrite app_nil_r. by destruct w.
  - cbn [producer]. rewrite bind_run, deposited_cons. unfold convertPacket.
    destruct (AkPacket_bool packet); cbn [negb andb].
    2: { exec. apply IH. }
    destruct (AkPacket_bool (m_convert_iStream env packet)); cbn [negb].
    2: { exec. apply IH. }
    exec. rewrite IH. cbn [m_frame trace foldl length replicate].
    by rewrite <- app_assoc.
Qed.

(** X7.  A run of [convertPacket] calls folds [operator+=] over the frames
    that pass both null tests, in the order they came, and wakes the
    consumer once per such frame; packets that are null or convert to null
    leave no mark. *)
Theorem producer_deposits env delivered w :
  producer env delivered w =
  (Some tt,
   mkWorld (foldl AkAudioPacket_append (m_frame w) (deposited env delivered))
           (trace w ++ replicate (length (deposited env delivered)) WakeAll)) /\
  (forall frame, frame ∈ deposited env delivered ->
     AkPacket_bool frame = true /\
     exists packet, packet ∈ delivered /\ AkPacket_bool packet = true /\
                    frame = m_convert_iStream env packet) /\
  (deposited env delivered = [] -> producer env delivered w = (Some tt, w)).
Proof.
  split; [apply producer_run|split].
  - intros frame Hin. unfold deposited in Hin.
    apply list_elem_of_In, List.filter_In in Hin as [Hin Hvalid].
    split; [exact Hvalid|].
    apply list_elem_of_In, list_elem_of_fmap in Hin as (packet & -> & Hp).
    apply list_elem_of_In, List.filter_In in Hp as [Hp Hpv].
    exists packet. by rewrite list_elem_of_In.
  - intros Hnone. rewrite producer_run, Hnone. cbn.
    rewrite app_nil_r. by destruct w.
Qed.

Lemma append_all_buffer frames :
  Forall (fun frame => AkPacket_bool frame = true) frames ->
  forall slot,
    AkPacket_bool slot = true ->
    AkPacket_bool (foldl AkAudioPacket_append slot frames) = true /\
    buffer (foldl AkAudioPacket_append slot frames) =
    buffer slot ++ concat (buffer <$> frames) /\
    pts (foldl AkAudioPacket_append slot frames) = pts slot /\
    timeBase (foldl AkAudioPacket_append slot frames) = timeBase slot.
Proof.
  induction 1 as [|frame frames Hframe _ IH]; intros slot Hslot.
  - cbn. by rewrite app_nil_r.
  - cbn [foldl fmap list_fmap concat].
    assert (Hnext : AkPacket_bool (AkAudioPacket_append slot frame) = true)
      by (unfold AkAudioPacket_append; rewrite Hslot; exact Hslot).
    destruct (IH _ Hnext) as (Hv & Hb & Hp & Ht).
    split; [exact Hv|]. rewrite Hb, Hp, Ht.
    unfold AkAudioPacket_append. rewrite Hslot. cbn [buffer pts timeBase].
    by rewrite <- app_assoc.
Qed.


Lemma avPacketDequeue_run env w :
  avPacketDequeue env w =
  if AkPacket_bool (m_frame w)
  then (Some (m_frame w), mkWorld AkPacket_null (trace w))
  else
    match m_frameReady_wait env (THREAD_WAIT_LIMIT env) with
    | TimedOut =>
        (Some AkPacket_null,
         mkWorld (m_frame w) (trace w ++ [Wait (THREAD_WAIT_LIMIT env)]))
    | Woken delivered =>
        (Some (foldl AkAudioPacket_append (m_frame w)
                     (deposited env delivered)),
         mkWorld AkPacket_null
           (trace w ++ Wait (THREAD_WAIT_LIMIT env)
                       :: replicate (length (deposited env delivered))
                                    WakeAll))
    end.
Proof.
  unfold avPacketDequeue. rewrite bind_run. cbn [get_frame].
  destruct (AkPacket_bool (m_frame w)); cbn [negb]; [by exec|].
  destruct (m_frameReady_wait _ _) as [|delivered]; [by exec|].
  exec. rewrite producer_run.
  cbn [m_frame trace]. by rewrite <- app_assoc.
Qed.


(** X10.  When the slot is empty and the wait is ended by the producer,
    [avPacketDequeue] hands out in one frame everything that was deposited
    during the wait, and the slot is empty again. *)
Theorem avPacketDequeue_woken env w delivered :
  AkPacket_bool (m_frame w) = false ->
  m_frameReady_wait env (THREAD_WAIT_LIMIT env) = Woken delivered ->
  avPacketDequeue env w =
  (Some (foldl AkAudioPacket_append (m_frame w) (deposited env delivered)),
   mkWorld AkPacket_null
     (trace w ++ Wait (THREAD_WAIT_LIMIT env)
                 :: replicate (length (deposited env delivered)) WakeAll)).
Proof. intros Hslot Hwait. by rewrite avPacketDequeue_run, Hslot, Hwait. Qed.

(** X11.  A frame is handed out once: after any [avPacketDequeue], a second
    one whose wait times out returns the null packet. *)
Theorem avPacketDequeue_twice env env' w packet w1 :
  avPacketDequeue env w = (Some packet, w1) ->
  m_frameReady_wait env' (THREAD_WAIT_LIMIT env') = TimedOut ->
  avPacketDequeue env' w1 =
  (Some AkPacket_null,
   mkWorld (m_frame w1) (trace w1 ++ [Wait (THREAD_WAIT_LIMIT env')])).
Proof.
  intros Hfirst Hwait.
  assert (Hempty : AkPacket_bool (m_frame w1) = false).
  { rewrite avPacketDequeue_run in Hfirst.
    destruct (AkPacket_bool (m_frame w)) eqn:Hslot.
    - by injection Hfirst as _ <-.
    - destruct (m_frameReady_wait env _); by injection Hfirst as _ <-. }
  by rewrite avPacketDequeue_run, Hempty, Hwait.
Qed.

Lemma avPacketDequeue_woken_witness :
  let env := arriving_env busy_codec [short_frame; AkPacket_null; late_frame] in
  avPacketDequeue env empty_world =
  (Some (frame_of [x01; x02; x03; x01; x02] 0 (mkFrac 1 48000)),
   mkWorld AkPacket_null [Wait 500; WakeAll; WakeAll]).
Proof.
  intros env.
  exact (avPacketDequeue_woken env empty_world
           [short_frame; AkPacket_null; late_frame] eq_refl eq_refl).
Defined.

Lemma avPacketDequeue_twice_witness :
  let env := simple_env x86_int busy_codec in
  avPacketDequeue env (mkWorld short_frame []) =
  (Some short_frame, empty_world) /\
  avPacketDequeue env empty_world =
  (Some AkPacket_null, mkWorld AkPacket_null [Wait 500]).
Proof.
  intros env. split; [reflexivity|].
  exact (avPacketDequeue_twice env env (mkWorld short_frame []) short_frame
           empty_world eq_refl eq_refl).
Defined.

(** ** More on one tick *)

Lemma filter_none {A} (f : A -> bool) (l : list A) :
  Forall (fun a => f a = false) l -> List.filter f l = [].
Proof.
  induction 1 as [|a l Ha _ IH]; cbn [List.filter]; [done|]. by rewrite Ha.
Qed.

Lemma avPacketDequeue_trace env w :
  exists packet w1 t,
    avPacketDequeue env w = (Some packet, w1) /\
    trace w1 = trace w ++ t /\
    Forall (fun c => is_condition_call c = true) t.
Proof.
  rewrite avPacketDequeue_run. destruct (AkPacket_bool (m_frame w)).
  - exists (m_frame w), (mkWorld AkPacket_null (trace w)), [].
    cbn [trace]. by rewrite app_nil_r.
  - destruct (m_frameReady_wait _ _) as [|delivered];
      eexists _, _, _; (split; [reflexivity|]); cbn [trace];
      (split; [reflexivity|]).
    + by repeat constructor.
    + constructor; [done|]. by apply Forall_replicate.
Qed.

Lemma drain_trace env w :
  exists t,
    trace (drain env w).2 = trace w ++ t /\
    Forall (fun c => is_output_call c = true) t /\
    ((drain env w).1 = Some tt ->
     t = [DequeueOutputBuffer timeOut] \/
     exists idx render packet,
       t = [ DequeueOutputBuffer timeOut; GetOutputBuffer idx;
             ReleaseOutputBuffer idx render; PacketReady packet ]) /\
    ((drain env w).1 = None ->
     exists idx, t = [DequeueOutputBuffer timeOut; GetOutputBuffer idx]).
Proof.
  unfold drain, readPacket. exec.
  destruct (AMediaCodec_dequeueOutputBuffer _ _) as [bufferIndex info].
  destruct (0 <=? bufferIndex); cbn [fst snd trace].
  { destruct (AMediaCodec_getOutputBuffer _ _) as [out_size|region];
      cbn [fst snd trace];
      (destruct (negb (Num.in_int _)); cbn [fst snd trace];
       [|destruct (memcpy_src _ _ _); cbn [fst snd trace]]);
      rewrite <- ?app_assoc; cbn [app];
      eexists; (split; [reflexivity|]);
      (split; [by repeat constructor|]);
      (split; [intros H; try done; right; by eexists _, _, _
              |intros H; try done; by eexists]). }
  eexists. split; [reflexivity|]. split; [by repeat constructor|].
  split; [by left|done].
Qed.


Lemma output_not_queue t :
  Forall (fun c => is_output_call c = true) t -> List.filter is_queue t = [].
Proof.
  intros H. apply filter_none. eapply Forall_impl; [exact H|].
  by intros [].
Qed.

Lemma condition_not_codec t :
  Forall (fun c => is_condition_call c = true) t ->
  List.filter (fun c => is_input_call c || is_output_call c) t = [] /\
  List.filter is_queue t = [].
Proof.
  intros H. split; apply filter_none; (eapply Forall_impl; [exact H|]);
    by intros [].
Qed.

(** X13.  Every tick only adds to the trace and queues at most one input
    buffer.  When it returns false it has made no call on the input side and
    none on the output side; in every other case it has queued exactly one
    input buffer. *)
Theorem encodeData_accounting env eos w :
  exists t,
    trace (encodeData env eos w).2 = trace w ++ t /\
    ((encodeData env eos w).1 = Some false ->
     List.filter (fun c => is_input_call c || is_output_call c) t = []) /\
    ((encodeData env eos w).1 <> Some false ->
     length (List.filter is_queue t) = 1%nat).
Proof.
  unfold encodeData. destruct eos.
  - exec.
    destruct (AMediaCodec_dequeueInputBuffer _ _ <? 0).
    + eexists. cbn [fst snd trace]. split; [reflexivity|]. by split.
    + match goal with
      | |- context [drain env ?w0] =>
          destruct (drain_trace env w0) as (td & Htd & Hout & _);
          destruct (drain env w0) as [[[]|] wd]
      end; cbn [fst snd trace] in *; rewrite Htd, <- !app_assoc;
        (eexists; split; [reflexivity|]); (split; [done|]); intros _;
        cbn [app List.filter is_queue length];
        by rewrite (output_not_queue td Hout).
  - rewrite !bind_run.
    destruct (avPacketDequeue_trace env w) as (packet & w1 & ta & -> & Hta & Hcond).
    destruct (condition_not_codec ta Hcond) as [Hnone Hnoq].
    destruct (AkPacket_bool packet); cbn [negb].
    2: { exec. cbn [fst snd]. exists ta. by rewrite Hta. }
    exec.
    destruct (AMediaCodec_dequeueInputBuffer _ _ <? 0).
    { cbn [fst snd trace]. rewrite Hta, <- app_assoc.
      eexists. split; [reflexivity|]. split; [|done]. intros _.
      by rewrite List.filter_app, Hnone. }
    destruct (AMediaCodec_getInputBuffer _ _) as [region|].
    2: { cbn [fst snd trace]. rewrite Hta, <- !app_assoc.
         eexists. split; [reflexivity|]. split; [|done]. intros _.
         by rewrite List.filter_app, Hnone. }
    match goal with
    | |- context [drain env ?w0] =>
        destruct (drain_trace env w0) as (td & Htd & Hout & _);
        destruct (drain env w0) as [[[]|] wd]
    end; cbn [fst snd trace] in *; rewrite Htd, Hta, <- !app_assoc;
      (eexists; split; [reflexivity|]); (split; [done|]); intros _;
      rewrite List.filter_app, Hnoq;
      cbn [app List.filter is_queue length];
      by rewrite (output_not_queue td Hout).
Qed.

(** ** More on the presentation time *)

Lemma presentationTime_seconds_table env bytes :
  forallb (fun pts =>
             presentationTime env (seconds_frame bytes pts) =? 10 ^ 6 * pts)
          (seqZ 0 2148) = true.
Proof. vm_compute. reflexivity. Qed.

(** X14.  The time queued with a frame is always the [uint64_t] image of an
    [int]: at most INT_MAX, or within 2^31 of 2^64.  A frame whose exact
    time lies between the two is queued with another time. *)
Theorem presentationTime_int_image env packet :
  let time := Num.to_uint64 (presentationTime env packet) in
  (0 <= time <= Num.INT_MAX \/ 2 ^ 64 - 2 ^ 31 <= time < 2 ^ 64) /\
  (Num.INT_MAX < presentationTime_spec packet < 2 ^ 64 - 2 ^ 31 ->
   time <> presentationTime_spec packet).
Proof.
  intros time. unfold time.
  pose proof (uint64_of_int (presentationTime env packet) (qRound_range _ _))
    as Himage.
  split; [exact Himage|]. intros H. destruct Himage; lia.
Qed.

(** X15.  In a time base of one second the queued time is exactly
    [10^6 * pts] for every pts from 0 to 2147, and differs from it for every
    pts from 2148 on (as far as [10^6 * pts] is below 2^64 - 2^31). *)
Theorem presentationTime_seconds env bytes secs :
  (0 <= secs <= 2147 ->
   presentationTime env (seconds_frame bytes secs) = 10 ^ 6 * secs /\
   Num.to_uint64 (presentationTime env (seconds_frame bytes secs)) =
   presentationTime_spec (seconds_frame bytes secs)) /\
  (2148 <= secs <= 18446744071562 ->
   Num.to_uint64 (presentationTime env (seconds_frame bytes secs)) <>
   10 ^ 6 * secs).
Proof.
  split.
  - intros Hpts.
    pose proof (presentationTime_seconds_table env bytes) as Htable.
    rewrite forallb_forall in Htable.
    assert (Hin : In secs (seqZ 0 2148))
      by (apply list_elem_of_In, elem_of_seqZ; lia).
    apply Htable, Z.eqb_eq in Hin. rewrite Hin. split; [done|].
    unfold presentationTime_spec, Num.round_frac, Num.to_uint64.
    cbn [seconds_frame frame_of pts timeBase num den].
    rewrite (proj2 (Z.leb_le 0 _)) by lia.
    rewrite Z.mod_small by lia.
    replace (2 * (10 ^ 6 * secs * 1) + 1)
      with (1 + (10 ^ 6 * secs) * (2 * 1)) by lia.
    rewrite Z.div_add by lia. by rewrite Z.div_small by lia.
  - intros Hpts.
    destruct (uint64_of_int (presentationTime env (seconds_frame bytes secs))
                (qRound_range _ _)) as [H|H];
      unfold Num.INT_MAX in *; lia.
Qed.

(** ** More on the packet assembler *)

Lemma to_size_t_nonneg z : 0 <= Num.to_size_t z < 2 ^ 64.
Proof. unfold Num.to_size_t, Num.to_uint64. by apply Z.mod_pos_bound. Qed.

Lemma len_nonneg l : 0 <= len l.
Proof. unfold len. lia. Qed.

Lemma readPacket_run env w idx info :
  readPacket env idx info w =
  let '(data, capacity) :=
    match AMediaCodec_getOutputBuffer (codec env) idx with
    | NullBuffer out_size => (None, Num.to_size_t out_size)
    | Buffer region => (Some region, len region)
    end in
  let n := Z.min capacity (Num.to_size_t (size info)) in
  let w' := mkWorld (m_frame w) (trace w ++ [GetOutputBuffer idx]) in
  if negb (Num.in_int n) then (None, w')
  else match memcpy_src data (offset info) n with
       | None => (None, w')
       | Some oBuffer =>
           (Some (mkPacket (Some "binary/data"%string) oBuffer
                           (presentationTimeUs info) (mkFrac 1 1000000)
                           (Num.to_int32 (self_index env)) 0), w')
       end.
Proof.
  unfold readPacket. exec.
  destruct (AMediaCodec_getOutputBuffer _ _); cbn;
    (destruct (negb (Num.in_int _)); [done|]);
    by destruct (memcpy_src _ _ _).
Qed.

(** X16.  When the metadata of an output buffer describes a range inside the
    buffer, [readPacket] returns the bytes from [offset] on, as many as the
    smaller of the capacity and the size, stamped with the presentation time
    of the metadata, the time base 1/1000000, the stream's index and id 0. *)
Theorem readPacket_slice env w idx info region :
  AMediaCodec_getOutputBuffer (codec env) idx = Buffer region ->
  0 <= size info <= Num.INT_MAX -> 0 <= offset info ->
  offset info + Z.min (len region) (size info) <= len region ->
  readPacket env idx info w =
  (Some (mkPacket (Some "binary/data"%string)
           (take (Z.to_nat (Z.min (len region) (size info)))
                 (drop (Z.to_nat (offset info)) region))
           (presentationTimeUs info) (mkFrac 1 1000000)
           (Num.to_int32 (self_index env)) 0),
   mkWorld (m_frame w) (trace w ++ [GetOutputBuffer idx])).
Proof.
  intros Hbuf Hsize Hoff Hrange.
  pose proof (len_nonneg region) as Hlen.
  rewrite readPacket_run, Hbuf.
  rewrite (to_size_t_id (size info)) by (unfold Num.INT_MAX in Hsize; lia).
  cbv zeta. set (n := Z.min (len region) (size info)) in *.
  assert (Hin : Num.in_int n = true).
  { unfold Num.in_int, Num.INT_MIN. apply andb_true_intro.
    split; apply Z.leb_le; lia. }
  rewrite Hin. cbn [negb]. unfold memcpy_src.
  destruct (Z.eqb_spec n 0) as [->|Hz]; [done|].
  rewrite (proj2 (Z.leb_le 0 (offset info))) by done.
  by rewrite (proj2 (Z.leb_le (offset info + n) (len region))) by done.
Qed.

Lemma readPacket_slice_witness :
  let info := mkInfo 1 2 1000 0 in
  readPacket (simple_env x86_int (output_codec info)) 0 info empty_world =
  (Some (mkPacket (Some "binary/data"%string) [x0b; x0c] 1000
                  (mkFrac 1 1000000) 1 0),
   mkWorld AkPacket_null [GetOutputBuffer 0]).
Proof.
  intros info.
  refine (readPacket_slice (simple_env x86_int (output_codec info))
            empty_world 0 info [x0a; x0b; x0c; x0d] eq_refl _ _ _);
    vm_compute; by try split.
Defined.



(** X18.  A negative size in the metadata does not give an empty payload:
    [size_t(info.size)] is then huge, the count is clamped to the capacity
    only, and with offset 0 the packet carries the whole output buffer. *)
Theorem readPacket_negative_size env w idx info region :
  AMediaCodec_getOutputBuffer (codec env) idx = Buffer region ->
  Num.INT_MIN <= size info < 0 -> offset info = 0 ->
  len region <= Num.INT_MAX ->
  readPacket env idx info w =
  (Some (mkPacket (Some "binary/data"%string) region
           (presentationTimeUs info) (mkFrac 1 1000000)
           (Num.to_int32 (self_index env)) 0),
   mkWorld (m_frame w) (trace w ++ [GetOutputBuffer idx])).
Proof.
  intros Hbuf Hsize Hoff Hcap.
  pose proof (len_nonneg region) as Hlen.
  assert (Hwrap : Num.to_size_t (size info) = size info + 2 ^ 64).
  { unfold Num.to_size_t, Num.to_uint64, Num.INT_MIN in *.
    replace (size info) with ((size info + 2 ^ 64) + (-1) * 2 ^ 64) at 1
      by lia.
    rewrite Z.mod_add by lia. apply Z.mod_small. lia. }
  rewrite readPacket_run, Hbuf, Hwrap, Hoff. cbv zeta.
  unfold Num.INT_MIN, Num.INT_MAX in *.
  rewrite Z.min_l by lia.
  assert (Hin : Num.in_int (len region) = true).
  { unfold Num.in_int, Num.INT_MIN, Num.INT_MAX. apply andb_true_intro.
    split; apply Z.leb_le; lia. }
  rewrite Hin. cbn [negb]. unfold memcpy_src.
  destruct (Z.eqb_spec (len region) 0) as [Hz|Hz].
  - assert (region = []) as ->.
    { destruct region; [done|]. unfold len in Hz. cbn [length] in Hz. lia. }
    done.
  - cbn [Z.leb Z.compare andb]. rewrite Z.leb_refl. cbn [Z.to_nat drop].
    unfold len. rewrite Nat2Z.id. by rewrite firstn_all.
Qed.

Lemma readPacket_negative_size_witness :
  let info := mkInfo 0 (-1) 1000 0 in
  readPacket (simple_env x86_int (output_codec info)) 0 info empty_world =
  (Some (mkPacket (Some "binary/data"%string) [x0a; x0b; x0c; x0d] 1000
                  (mkFrac 1 1000000) 1 0),
   mkWorld AkPacket_null [GetOutputBuffer 0]).
Proof.
  intros info.
  refine (readPacket_negative_size (simple_env x86_int (output_codec info))
            empty_world 0 info [x0a; x0b; x0c; x0d] eq_refl _ eq_refl _);
    vm_compute; by try split.
Defined.

(** X19.  An output buffer whose metadata has size 0 is released without
    rendering and still emitted, as a packet with an empty payload; this
    holds for any pointer, null included, and any offset. *)
Theorem drain_zero_size env w :
  let answer := AMediaCodec_dequeueOutputBuffer (codec env) timeOut in
  0 <= answer.1 -> size answer.2 = 0 ->
  drain env w =
  (Some tt,
   mkWorld (m_frame w)
     (trace w ++
      [ DequeueOutputBuffer timeOut;
        GetOutputBuffer (Num.to_size_t answer.1);
        ReleaseOutputBuffer (Num.to_size_t answer.1) false;
        PacketReady
          (mkPacket (Some "binary/data"%string) []
                    (presentationTimeUs answer.2) (mkFrac 1 1000000)
                    (Num.to_int32 (self_index env)) 0) ])).
Proof.
  intros answer Hidx Hsize. unfold drain. rewrite !bind_run. cbn [log].
  fold answer. destruct answer as [bufferIndex info] eqn:Hanswer.
  cbn [fst snd] in *.
  rewrite (proj2 (Z.leb_le 0 bufferIndex)) by done.
  rewrite bind_run, readPacket_run, Hsize.
  assert (Hmin : forall capacity, 0 <= capacity ->
                 Z.min capacity (Num.to_size_t 0) = 0).
  { intros capacity Hc. change (Num.to_size_t 0) with 0. lia. }
  destruct (AMediaCodec_getOutputBuffer _ _) as [out_size|region]; cbv zeta;
    [rewrite Hmin by apply to_size_t_nonneg|rewrite Hmin by apply len_nonneg];
    cbn [memcpy_src Z.eqb]; change (Num.in_int 0) with true;
    exec; cbn [negb m_frame trace]; by rewrite <- !app_assoc.
Qed.

Lemma drain_zero_size_witness :
  drain (simple_env x86_int
           (simple_codec 0 None 0 (mkInfo 7 0 1000 0) (NullBuffer 0)))
        empty_world =
  (Some tt,
   mkWorld AkPacket_null
     [ DequeueOutputBuffer 5000; GetOutputBuffer 0;
       ReleaseOutputBuffer 0 false;
       PacketReady (mkPacket (Some "binary/data"%string) [] 1000
                             (mkFrac 1 1000000) 1 0) ]).
Proof.
  refine (drain_zero_size
            (simple_env x86_int
               (simple_codec 0 None 0 (mkInfo 7 0 1000 0) (NullBuffer 0)))
            empty_world _ eq_refl).
  vm_compute. discriminate.
Defined.

(** ** Deposits and ticks together *)

Lemma input_calls_condition t :
  Forall (fun c => is_condition_call c = true) t -> input_calls t = [].
Proof.
  intros H. apply filter_none. eapply Forall_impl; [exact H|]. by intros [].
Qed.



(** X21.  Frames deposited while a tick waits on the empty slot are
    submitted by that same tick, as one input buffer holding their samples in
    arrival order, cut to the capacity of the buffer; the slot is empty
    afterwards. *)
Theorem encodeData_frames_during_wait env w delivered region :
  AkPacket_bool (m_frame w) = false ->
  m_frameReady_wait env (THREAD_WAIT_LIMIT env) = Woken delivered ->
  deposited env delivered <> [] ->
  0 <= AMediaCodec_dequeueInputBuffer (codec env) timeOut ->
  AMediaCodec_getInputBuffer (codec env)
    (Num.to_size_t (AMediaCodec_dequeueInputBuffer (codec env) timeOut)) =
  Some region ->
  let idx := Num.to_size_t (AMediaCodec_dequeueInputBuffer (codec env) timeOut) in
  let samples := concat (buffer <$> deposited env delivered) in
  let n := Z.min (len samples) (len region) in
  exists time,
    input_calls (trace (encodeData env false w).2) =
    input_calls (trace w) ++
    [Memcpy idx (memcpy region samples n); QueueInputBuffer idx 0 n time 0] /\
    m_frame (encodeData env false w).2 = AkPacket_null.
Proof.
  intros Hslot Hwait Hsome Hidx Hbuf idx samples n.
  pose proof (avPacketDequeue_woken env w delivered Hslot Hwait) as Hdeq.
  set (frame := foldl AkAudioPacket_append (m_frame w)
                      (deposited env delivered)) in *.
  assert (Hall : Forall (fun f => AkPacket_bool f = true)
                        (deposited env delivered)).
  { apply Forall_forall. intros f Hin. unfold deposited in Hin.
    by apply list_elem_of_In, List.filter_In in Hin as [_ Hvalid]. }
  assert (Hframe : AkPacket_bool frame = true /\ buffer frame = samples).
  { unfold frame, samples.
    destruct (deposited env delivered) as [|first rest]; [done|].
    apply Forall_cons in Hall as [Hf Hrest]. cbn [foldl].
    assert (Hfirst : AkAudioPacket_append (m_frame w) first = first)
      by (unfold AkAudioPacket_append; by rewrite Hslot).
    rewrite Hfirst.
    by destruct (append_all_buffer rest Hrest first Hf) as (Hv & Hb & _). }
  destruct Hframe as [Hvalid Hsamples].
  exists (Num.to_uint64 (presentationTime env frame)).
  rewrite (encodeData_submit env w frame _ region Hdeq Hvalid Hidx Hbuf).
  rewrite Hsamples. fold idx samples n.
  match goal with
  | |- context [(drain env ≫= _) ?w0] =>
      destruct (drain_then_true env w0) as [Hf Hc]
  end.
  rewrite Hf, Hc. cbn [m_frame trace]. split; [|done].
  rewrite !input_calls_app.
  rewrite (input_calls_condition
             (Wait (THREAD_WAIT_LIMIT env)
              :: replicate (length (deposited env delivered)) WakeAll)).
  - cbn. by rewrite app_nil_r.
  - constructor; [done|]. by apply Forall_replicate.
Qed.

Lemma encodeData_frames_during_wait_witness :
  let env := arriving_env small_codec [short_frame; late_frame] in
  exists time,
    input_calls (trace (encodeData env false empty_world).2) =
    [Memcpy 0 [x01; x02]; QueueInputBuffer 0 0 2 time 0] /\
    m_frame (encodeData env false empty_world).2 = AkPacket_null.
Proof.
  intros env.
  assert (Hidx : 0 <= AMediaCodec_dequeueInputBuffer (codec env) timeOut)
    by (vm_compute; discriminate).
  refine (encodeData_frames_during_wait env empty_world
            [short_frame; late_frame] [x00; x00] eq_refl eq_refl _ Hidx
            eq_refl).
  discriminate.
Defined.

(** ** The constructor and the life cycle *)

(** X22.  The constructor writes the channel mask, the channel count and the
    sample rate, and the PCM encoding only when built for Android API 28 or
    later; every other entry of the media format stays as the base class
    left it.  The mask is written unchanged (it fits an [int32_t]), and an
    unsupported sample format is not refused: its encoding entry is 0. *)
Theorem AudioStream_mediaFormat_entries {ChannelLayout : Type}
    (positions : ChannelLayout -> list Position) (android_api : Z)
    (audioCaps : AkAudioCaps ChannelLayout) (mediaFormat : AMediaFormat) :
  let format :=
    AudioStream_mediaFormat positions android_api audioCaps mediaFormat in
  format AMEDIAFORMAT_KEY_CHANNEL_MASK =
  Some (channelMaskFromLayout positions (caps_layout audioCaps)) /\
  format AMEDIAFORMAT_KEY_CHANNEL_COUNT =
  Some (Num.to_int32 (caps_channels audioCaps)) /\
  format AMEDIAFORMAT_KEY_SAMPLE_RATE =
  Some (Num.to_int32 (caps_rate audioCaps)) /\
  format AMEDIAFORMAT_KEY_PCM_ENCODING =
  (if 28 <=? android_api
   then Some (encodingFromSampleFormat (caps_format audioCaps))
   else mediaFormat AMEDIAFORMAT_KEY_PCM_ENCODING) /\
  (28 <= android_api -> ~ supported (caps_format audioCaps) ->
   format AMEDIAFORMAT_KEY_PCM_ENCODING = Some 0) /\
  (forall name,
     format (AMEDIAFORMAT_KEY_other name) =
     mediaFormat (AMEDIAFORMAT_KEY_other name)).
Proof.
  intros format.
  assert (Hmask : Num.to_int32
                    (channelMaskFromLayout positions (caps_layout audioCaps)) =
                  channelMaskFromLayout positions (caps_layout audioCaps)).
  { unfold channelMaskFromLayout.
    pose proof (channelMaskFromPositions_reachable
                  (positions (caps_layout audioCaps))) as Hsub.
    apply land_submask_le in Hsub; [|done].
    apply to_int32_id. unfold Num.in_int, Num.INT_MIN, Num.INT_MAX.
    unfold CHANNEL_MASK_REACHABLE in Hsub.
    apply andb_true_intro. split; apply Z.leb_le; lia. }
  assert (Henc : Num.to_int32
                   (encodingFromSampleFormat (caps_format audioCaps)) =
                 encodingFromSampleFormat (caps_format audioCaps)).
  { unfold encodingFromSampleFormat, QMap.value.
    rewrite encodingFromSampleFormat_lookup.
    by destruct (caps_format audioCaps). }
  assert (Hpcm : format AMEDIAFORMAT_KEY_PCM_ENCODING =
    if 28 <=? android_api
    then Some (encodingFromSampleFormat (caps_format audioCaps))
    else mediaFormat AMEDIAFORMAT_KEY_PCM_ENCODING).
  { unfold format, AudioStream_mediaFormat, AMediaFormat_setInt32.
    cbn. destruct (28 <=? android_api); [|done]. cbn. by rewrite Henc. }
  repeat split.
  - unfold format, AudioStream_mediaFormat, AMediaFormat_setInt32. cbn.
    by rewrite Hmask.
  - exact Hpcm.
  - intros Hapi Hunsupported. rewrite Hpcm.
    rewrite (proj2 (Z.leb_le 28 android_api)) by done.
    unfold encodingFromSampleFormat, QMap.value.
    rewrite encodingFromSampleFormat_lookup.
    by destruct (caps_format audioCaps).
  - intros name. unfold format, AudioStream_mediaFormat, AMediaFormat_setInt32.
    cbn. by destruct (28 <=? android_api).
Qed.

Lemma life_run_snoc ops op c :
  life_run (ops ++ [op]) c = life_step (life_run ops c) op.
Proof. unfold life_run. by rewrite foldl_app. Qed.

(** X23.  After any sequence of [init], [uninit] and destructor calls the
    converter is playing exactly when the last call was an [init] for which
    [AbstractStream::init] returned true; after any other last call it is in
    the null state, and [init] returns what the base class returned. *)
Theorem life_run_state ops c :
  m_convert_state (life_run ops c) =
  match last ops with
  | None => m_convert_state c
  | Some (Op_init true) => ElementStatePlaying
  | Some _ => ElementStateNull
  end /\
  (forall base_result, (init base_result (life_run ops c)).1 = base_result).
Proof.
  split; [|done].
  induction ops as [|op ops _] using rev_ind; [done|].
  rewrite life_run_snoc, last_snoc.
  by destruct op as [[]| |].
Qed.
